(** * bazabot: the incident repository of [database.py]

    A shallow embedding of the [Database] class (the SQLite-backed
    repository of staff members, incidents ("mistakes") and comments) and
    the properties of its operations.

    Modelling choices.
    - The three tables are lists of rows in rowid order; [mistakes_seq] and
      [comments_seq] are the AUTOINCREMENT counters of SQLite's
      [sqlite_sequence] table.
    - Python [int] and SQLite INTEGER are [Z]; a timestamp
      ([datetime.now()], the [date] columns) is a [Z] that grows with time,
      so that SQLite's comparison of the stored ISO texts is [Z]'s order.
    - A Python [str] is a [string]; a character is an [ascii], standing for
      the code points U+0000..U+00FF.
    - Every [cursor.execute] and [conn.commit] may fail with a
      [sqlite3.Error]; which ones do is decided by a schedule of faults
      carried by the [world].  The database the model carries is the one
      the single connection sees (committed and pending changes alike).
      A failing call leaves that database as it is, as a locked database
      does; a disk-full or I/O error makes SQLite roll the open
      transaction back as well, which the model does not follow.  What is
      stated about the contents of the store is therefore stated for runs
      in which no call fails, or is such that a rollback does not affect
      it.
    - The connection stays open for the lifetime of the object.
    - The model follows the code for integers that fit SQLite's 64 bits
      ([in_int64]): a larger Python [int] makes [cursor.execute] raise
      [OverflowError] before the statement runs.  The statements about an
      id or a priority that the caller chooses freely have [in_int64] as a
      hypothesis; the ids of the rows of a store and the ids of Telegram
      users fit by themselves.
    - SQLite refuses a LIKE pattern of more than 50000 bytes; the
      statements about a search have [like_pattern_fits] as a hypothesis.
    - SQLite does not say how ORDER BY orders rows with equal keys, nor in
      which order GROUP_CONCAT joins the rows of a group; the model sorts
      with a merge sort, the order of the comments in [get_user_mistakes]
      is a parameter, and no statement below depends on how ties fall.
    - SQLite's date functions are parameters of the operations that use
      them; the two statements of a report see the same clock. *)

From Stdlib Require Import ZArith String Ascii Btauto.
From stdpp Require Import base decidable list sorting gmap strings.

Local Open Scope Z_scope.

(** ** Exceptions and results *)

(** [sqlite3.Error]: the code tells [sqlite3.IntegrityError] from all the
    other classes, two of which stand for them here. *)
Inductive sqlite_error : Type :=
  | IntegrityError
  | OperationalError
  | DatabaseError.

Inductive exn : Type :=
  | AttributeError (attr : string)
  | Sqlite3Error (e : sqlite_error).

Inductive result (A : Type) : Type :=
  | Ok (a : A)
  | Raise (e : exn).
Arguments Ok {A} a.
Arguments Raise {A} e.

(** ** The store *)

(** A row of [mistakes]: id, user, description, date, priority, closed. *)
Record mistake : Type := Mistake {
  m_id : Z;
  m_user : string;
  m_description : string;
  m_date : Z;
  m_priority : Z;
  m_closed : Z
}.

(** A row of [comments]: id, mistake_id, user_id, text, date. *)
Record comment : Type := Comment {
  c_id : Z;
  c_mistake_id : Z;
  c_user_id : Z;
  c_text : string;
  c_date : Z
}.

Record db : Type := Db {
  users : list string;
  mistakes : list mistake;
  comments : list comment;
  mistakes_seq : Z;
  comments_seq : Z
}.

(** [create_tables] on a fresh file. *)
Definition empty_db : db := Db [] [] [] 0 0.

Definition set_users (us : list string) (d : db) : db :=
  Db us (mistakes d) (comments d) (mistakes_seq d) (comments_seq d).
Definition set_mistakes (ms : list mistake) (d : db) : db :=
  Db (users d) ms (comments d) (mistakes_seq d) (comments_seq d).
Definition set_comments (cs : list comment) (d : db) : db :=
  Db (users d) (mistakes d) cs (mistakes_seq d) (comments_seq d).

(** The store together with the faults still to come: the n-th entry says
    whether the n-th call into SQLite from now on fails, and how. *)
Record world : Type := World {
  w_db : db;
  w_faults : list (option sqlite_error)
}.

(** A store on which no call fails. *)
Definition healthy (d : db) : world := World d [].

(** ** A state-and-exception monad for the method bodies *)

Definition M (A : Type) : Type := world → result A * world.

#[global] Instance M_ret : MRet M := λ A a w, (Ok a, w).

#[global] Instance M_bind : MBind M := λ A B k m w,
  match m w with
  | (Ok a, w') => k a w'
  | (Raise e, w') => (Raise e, w')
  end.

Definition ret {A} (a : A) : M A := mret a.

Definition raise {A} (e : exn) : M A := λ w, (Raise e, w).

(** [try: body except sqlite3.Error: return sentinel] *)
Definition try_except_sqlite3_Error {A} (body : M A) (sentinel : A) : M A :=
  λ w, match body w with
       | (Raise (Sqlite3Error _), w') => (Ok sentinel, w')
       | r => r
       end.

(** [try: body except sqlite3.IntegrityError: return sentinel] *)
Definition try_except_IntegrityError {A} (body : M A) (sentinel : A) : M A :=
  λ w, match body w with
       | (Raise (Sqlite3Error IntegrityError), w') => (Ok sentinel, w')
       | r => r
       end.

Definition get_db : M db := λ w, (Ok (w_db w), w).
Definition put_db (d : db) : M unit := λ w, (Ok tt, World d (w_faults w)).

(** One call into SQLite: it consumes the next entry of the schedule. *)
Definition sqlite_call : M unit :=
  λ w, match w_faults w with
       | Some e :: fs => (Raise (Sqlite3Error e), World (w_db w) fs)
       | None :: fs => (Ok tt, World (w_db w) fs)
       | [] => (Ok tt, w)
       end.

(** [cursor.execute(SELECT ...)] followed by the fetch. *)
Definition select {A} (q : db → A) : M A :=
  sqlite_call;;
  d ← get_db;
  ret (q d).

(** [cursor.execute] of a statement that changes the store; the value is
    what the cursor reports afterwards ([rowcount] or [lastrowid]). *)
Definition execute {A} (stmt : db → A * db) : M A :=
  sqlite_call;;
  d ← get_db;
  put_db (snd (stmt d));;
  ret (fst (stmt d)).

(** [self.conn.commit()] *)
Definition commit : M unit := sqlite_call.

(** ** Attributes of a [Database] object *)

(** [__init__] assigns exactly these attributes. *)
Definition instance_attributes : list string :=
  ["db_path"; "conn"; "mistakes_cache"]%string.

(** The names the class body defines. *)
Definition class_attributes : list string :=
  ["__init__"; "create_tables"; "get_users"; "add_user"; "delete_user";
   "add_mistake"; "mistake_exists"; "close_mistake"; "get_week_mistakes";
   "get_month_mistakes"; "get_users_stats"; "get_user_detailed_stats";
   "add_comment"; "add_history"; "search_mistakes"; "get_mistake_stats";
   "get_priority_stats"; "get_status_stats"; "get_mistake_details";
   "get_old_mistakes"; "get_user_stats"; "get_period_stats";
   "get_all_stats"; "has_any_data"; "__del__"; "get_mistake";
   "get_mistakes_by_date"; "get_user_mistakes"; "clear_mistakes"]%string.

(** [self.<attr>]: an attribute neither the instance nor the class has
    raises [AttributeError]. *)
Definition self_attr (attr : string) : M unit :=
  if bool_decide (attr ∈ instance_attributes ++ class_attributes)
  then ret tt
  else raise (AttributeError attr).

(** ** SQL statements of the write operations *)

(** [COUNT( * )] *)
Definition sql_count {A} (rows : list A) : Z := Z.of_nat (length rows).

(** [INSERT INTO users (name) VALUES (?)]: [name] is the primary key. *)
Definition sql_insert_user (name : string) : M unit :=
  sqlite_call;;
  d ← get_db;
  if bool_decide (name ∈ users d)
  then raise (Sqlite3Error IntegrityError)
  else put_db (set_users (users d ++ [name]) d).

(** [SELECT COUNT( * ) FROM mistakes WHERE user = ? AND closed = 0] *)
Definition sql_count_active (name : string) (d : db) : Z :=
  sql_count (filter (λ m, m_user m = name ∧ m_closed m = 0) (mistakes d)).

(** [DELETE FROM users WHERE name = ?]; the value is [cursor.rowcount]. *)
Definition sql_delete_user (name : string) (d : db) : Z * db :=
  (sql_count (filter (λ u, u = name) (users d)),
   set_users (filter (λ u, u ≠ name) (users d)) d).

(** [INSERT INTO mistakes (user, description, date, priority) VALUES
    (?, ?, ?, ?)]: the id comes from the AUTOINCREMENT counter, [closed]
    takes its default 0; the value is [cursor.lastrowid]. *)
Definition sql_insert_mistake (user description : string) (date priority : Z)
    (d : db) : Z * db :=
  let id := mistakes_seq d + 1 in
  (id,
   Db (users d)
      (mistakes d ++ [Mistake id user description date priority 0])
      (comments d) id (comments_seq d)).

(** [SELECT COUNT( * ) FROM mistakes WHERE id = ?] *)
Definition sql_count_id (mistake_id : Z) (d : db) : Z :=
  sql_count (filter (λ m, m_id m = mistake_id) (mistakes d)).

Definition close_row (mistake_id : Z) (m : mistake) : mistake :=
  if bool_decide (m_id m = mistake_id)
  then Mistake (m_id m) (m_user m) (m_description m) (m_date m) (m_priority m) 1
  else m.

(** [UPDATE mistakes SET closed = 1 WHERE id = ?] *)
Definition sql_close (mistake_id : Z) (d : db) : unit * db :=
  (tt, set_mistakes (close_row mistake_id <$> mistakes d) d).

(** [INSERT INTO comments (mistake_id, user_id, text, date) VALUES
    (?, ?, ?, ?)]; foreign keys are not enforced. *)
Definition sql_insert_comment (mistake_id user_id : Z) (text : string) (date : Z)
    (d : db) : unit * db :=
  let id := comments_seq d + 1 in
  (tt,
   Db (users d) (mistakes d)
      (comments d ++ [Comment id mistake_id user_id text date])
      (mistakes_seq d) id).

(** [DELETE FROM comments] and [DELETE FROM mistakes]; the counters of
    [sqlite_sequence] stay. *)
Definition sql_delete_comments (d : db) : unit * db := (tt, set_comments [] d).
Definition sql_delete_mistakes (d : db) : unit * db := (tt, set_mistakes [] d).

(** ** The repository: users and incidents *)

Definition string_le (a b : string) : Prop := String.leb a b = true.

#[local] Instance string_le_dec a b : Decision (string_le a b).
Proof. unfold string_le. apply _. Defined.

(** [SELECT name FROM users ORDER BY name] *)
Definition get_users : M (list string) :=
  select (λ d, merge_sort string_le (users d)).

Definition add_user (name : string) : M bool :=
  try_except_IntegrityError
    (sql_insert_user name;;
     commit;;
     ret true)
    false.

Definition delete_user (name : string) : M bool :=
  try_except_sqlite3_Error
    (active_mistakes ← select (sql_count_active name);
     if bool_decide (active_mistakes > 0) then ret false
     else
       rowcount ← execute (sql_delete_user name);
       commit;;
       ret (bool_decide (rowcount > 0)))
    false.

(** [now] is the value of [datetime.now()]. *)
Definition add_mistake (now : Z) (user description : string) (priority : Z)
    : M (option Z) :=
  let priority := if bool_decide (priority ∉ [1; 2]) then 1 else priority in
  try_except_sqlite3_Error
    (lastrowid ← execute (sql_insert_mistake user description now priority);
     commit;;
     ret (Some lastrowid))
    None.

Definition mistake_exists (mistake_id : Z) : M bool :=
  n ← select (sql_count_id mistake_id);
  ret (bool_decide (n > 0)).

Definition close_mistake (mistake_id : Z) : M bool :=
  try_except_sqlite3_Error
    (execute (sql_close mistake_id);;
     commit;;
     ret true)
    false.

Definition add_comment (now : Z) (mistake_id user_id : Z) (text : string) : M bool :=
  try_except_sqlite3_Error
    (execute (sql_insert_comment mistake_id user_id text now);;
     commit;;
     ret true)
    false.

Definition clear_mistakes : M bool :=
  try_except_sqlite3_Error
    (execute sql_delete_comments;;
     execute sql_delete_mistakes;;
     commit;;
     ret true)
    false.

(** ** The command that closes an incident ([group_handler] of [govno.py]) *)

(** What the handler replies to ["-1 косяк #<id>"] and
    ["-1 косяк #<id> - <comment>"]. *)
Inductive close_reply : Type :=
  | ReplyNotFound
  | ReplyClosed (comment : option string)
  | ReplyCloseError.

(** The branch of [group_handler] after the command is parsed:
    [mistake_id] and [comment] are the groups of the match, [user_id] is
    [message.from_user.id]. *)
Definition group_handler_close (now : Z) (mistake_id : Z) (comment : option string)
    (user_id : Z) : M close_reply :=
  found ← mistake_exists mistake_id;
  if negb found then ret ReplyNotFound
  else
    closed ← close_mistake mistake_id;
    if closed : bool then
      match comment with
      | Some text =>
          if bool_decide (text ≠ EmptyString)
          then add_comment now mistake_id user_id text;; ret (ReplyClosed (Some text))
          else ret (ReplyClosed None)
      | None => ret (ReplyClosed None)
      end
    else ret ReplyCloseError.

(** ** Strings: [str.isdigit], text as a number, LIKE *)

Definition in_range (lo hi : N) (c : ascii) : bool :=
  ((lo <=? N_of_ascii c) && (N_of_ascii c <=? hi))%N.

(** [c.isdigit()] on U+0000..U+00FF: the ASCII digits and the superscript
    digits U+00B2, U+00B3 and U+00B9. *)
Definition char_isdigit (c : ascii) : bool :=
  in_range 48 57 c || in_range 178 179 c || in_range 185 185 c.

Fixpoint string_forall (p : ascii → bool) (s : string) : bool :=
  match s with
  | EmptyString => true
  | String c s' => p c && string_forall p s'
  end.

(** [s.isdigit()]: at least one character, and all of them digits. *)
Definition isdigit (s : string) : bool :=
  match s with
  | EmptyString => false
  | _ => string_forall char_isdigit s
  end.

Fixpoint decimal (acc : Z) (s : string) : option Z :=
  match s with
  | EmptyString => Some acc
  | String c s' =>
      if in_range 48 57 c
      then decimal (10 * acc + (Z.of_N (N_of_ascii c) - 48)) s'
      else None
  end.

(** The integer a text means to a column of INTEGER affinity, for the
    texts [search_mistakes] binds (those that pass [isdigit]): a run of
    ASCII digits is its decimal value, anything else stays text. *)
Definition text_as_integer (s : string) : option Z :=
  match s with
  | EmptyString => None
  | _ => decimal 0 s
  end.

(** A value bound to a [?]. *)
Inductive sql_value : Type :=
  | SqlInteger (z : Z)
  | SqlText (s : string).

(** [id = ?] on the INTEGER column [id]: a text that does not convert is
    never equal to an integer. *)
Definition integer_column_eq (col : Z) (v : sql_value) : bool :=
  match v with
  | SqlInteger z => bool_decide (col = z)
  | SqlText s =>
      match text_as_integer s with
      | Some z => bool_decide (col = z)
      | None => false
      end
  end.

(** SQLite folds the case of ASCII letters only. *)
Definition sqlite_tolower (c : ascii) : ascii :=
  if in_range 65 90 c then ascii_of_N (N_of_ascii c + 32) else c.

(** SQLite's [patternCompare] for LIKE, on two texts without U+0000: [%]
    stands for any run of characters, [_] for one character, any other
    character for itself up to ASCII case. *)
Fixpoint patternCompare (pattern : string) : string → bool :=
  match pattern with
  | EmptyString => λ s, bool_decide (s = EmptyString)
  | String c pattern' =>
      if bool_decide (c = "%"%char) then
        fix any (s : string) : bool :=
          patternCompare pattern' s ||
          match s with
          | EmptyString => false
          | String _ s' => any s'
          end
      else if bool_decide (c = "_"%char) then
        λ s, match s with
             | EmptyString => false
             | String _ s' => patternCompare pattern' s'
             end
      else
        λ s, match s with
             | EmptyString => false
             | String x s' =>
                 bool_decide (sqlite_tolower x = sqlite_tolower c) &&
                 patternCompare pattern' s'
             end
  end.

(** A text as the C string that SQLite's LIKE reads: it ends at the first
    U+0000. *)
Fixpoint until_nul (s : string) : string :=
  match s with
  | EmptyString => EmptyString
  | String c s' =>
      if bool_decide (c = "000"%char) then EmptyString else String c (until_nul s')
  end.

(** [s LIKE pattern]: both operands are read up to their first U+0000. *)
Definition like (pattern s : string) : bool :=
  patternCompare (until_nul pattern) (until_nul s).

(** ** Search *)

(** The keyword arguments [search_mistakes] looks at; [None] is a key
    that is not in [params]. *)
Record search_params : Type := SearchParams {
  p_user : option string;
  p_status : option string;
  p_priority : option Z;
  p_text : option string
}.

Definition no_filters : search_params := SearchParams None None None None.

(** [ORDER BY date DESC] *)
Definition date_desc (a b : mistake) : Prop := m_date b ≤ m_date a.

#[local] Instance date_desc_dec a b : Decision (date_desc a b).
Proof. unfold date_desc. apply _. Defined.

#[local] Instance date_desc_total : Total date_desc.
Proof. intros a b. unfold date_desc. lia. Qed.

#[local] Instance date_desc_trans : Transitive date_desc.
Proof. intros a b c. unfold date_desc. lia. Qed.

(** The conditions in the order the code appends them, each with the
    parameters it binds. *)
Definition search_conditions (params : search_params) : list (mistake → bool) :=
  match p_user params with
  | Some user => [λ m, like ("%" +:+ user +:+ "%") (m_user m)]
  | None => []
  end ++
  match p_status params with
  | Some status =>
      [λ m, bool_decide (m_closed m = if bool_decide (status = "closed"%string) then 1 else 0)]
  | None => []
  end ++
  match p_priority params with
  | Some priority => [λ m, bool_decide (m_priority m = priority)]
  | None => []
  end ++
  match p_text params with
  | Some text =>
      [λ m, like ("%" +:+ text +:+ "%") (m_description m) ||
            integer_column_eq (m_id m)
              (if isdigit text then SqlText text else SqlInteger (-1))]
  | None => []
  end.

(** [" AND ".join(conditions) if conditions else "1"] *)
Definition where_clause (conditions : list (mistake → bool)) (m : mistake) : bool :=
  forallb (λ c, c m) conditions.

(** [SELECT * FROM mistakes WHERE ... ORDER BY date DESC LIMIT 50] *)
Definition search_mistakes (params : search_params) : M (list mistake) :=
  let conditions := search_conditions params in
  select (λ d,
    take 50 (merge_sort date_desc
      (filter (λ m, where_clause conditions m = true) (mistakes d)))).

(** ** Aggregation *)

(** [SUM]: the sum of no rows is NULL. *)
Definition sql_sum (xs : list Z) : option Z :=
  match xs with
  | [] => None
  | _ => Some (foldr Z.add 0 xs)
  end.

(** [CASE WHEN c THEN 1 ELSE 0 END] *)
Definition case_when (P : Prop) `{!Decision P} : Z := if decide P then 1 else 0.

(** [v or 0]: NULL (and 0) become 0. *)
Definition or_0 (v : option Z) : Z := default 0 v.

(** The dictionary with the keys total, active and closed. *)
Record counts : Type := Counts {
  total : Z;
  active : Z;
  closed : Z
}.

(** The dictionary of the period and all-time reports. *)
Record report : Type := Report {
  r_total : Z;
  r_active : Z;
  r_closed : Z;
  r_priority_1 : Z;
  r_priority_2 : Z;
  r_priority_3 : Z;
  r_top_users : list (string * Z)
}.

(** [SELECT COUNT( * ), SUM(CASE WHEN closed = 0 ...), SUM(CASE WHEN
    closed = 1 ...)] over [rows]. *)
Definition sql_status_row (rows : list mistake) : Z * option Z * option Z :=
  (sql_count rows,
   sql_sum ((λ m, case_when (m_closed m = 0)) <$> rows),
   sql_sum ((λ m, case_when (m_closed m = 1)) <$> rows)).

Definition get_status_stats : M counts :=
  row ← select (λ d, sql_status_row (mistakes d));
  ret (Counts (or_0 (Some row.1.1)) (or_0 row.1.2) (or_0 row.2)).

(** [ORDER BY count DESC] *)
Definition count_desc (a b : string * Z) : Prop := b.2 ≤ a.2.

#[local] Instance count_desc_dec a b : Decision (count_desc a b).
Proof. unfold count_desc. apply _. Defined.

(** [SELECT user, COUNT( * ) ... GROUP BY user]: one row per distinct
    user, in the order of the grouping key. *)
Definition sql_count_by_user (rows : list mistake) : list (string * Z) :=
  (λ u, (u, sql_count (filter (λ m, m_user m = u) rows)))
    <$> merge_sort string_le (remove_dups (m_user <$> rows)).

(** [... ORDER BY count DESC LIMIT 5] *)
Definition sql_top_users (rows : list mistake) : list (string * Z) :=
  take 5 (merge_sort count_desc (sql_count_by_user rows)).

Definition sql_report_row (rows : list mistake) : list (option Z) :=
  [Some (sql_count rows);
   sql_sum ((λ m, case_when (m_closed m = 0)) <$> rows);
   sql_sum ((λ m, case_when (m_closed m = 1)) <$> rows);
   sql_sum ((λ m, case_when (m_priority m = 1)) <$> rows);
   sql_sum ((λ m, case_when (m_priority m = 2)) <$> rows);
   sql_sum ((λ m, case_when (m_priority m = 3)) <$> rows)].

(** [result[i] or 0] *)
Definition column_or_0 (result : list (option Z)) (i : nat) : Z :=
  or_0 (mjoin (result !! i)).

Definition make_report (result : list (option Z)) (top_users : list (string * Z)) : report :=
  Report (column_or_0 result 0) (column_or_0 result 1) (column_or_0 result 2)
         (column_or_0 result 3) (column_or_0 result 4) (column_or_0 result 5)
         top_users.

Definition get_all_stats : M report :=
  result ← select (λ d, sql_report_row (mistakes d));
  top_users ← select (λ d, sql_top_users (mistakes d));
  ret (make_report result top_users).

Definition has_any_data : M bool :=
  n ← select (λ d, sql_count (mistakes d));
  ret (bool_decide (n > 0)).

(** [SELECT m.user, COUNT( * ), SUM(...), SUM(...) FROM mistakes m
    GROUP BY m.user ORDER BY m.user] *)
Definition sql_stats_by_user (rows : list mistake) : list (string * Z * option Z * option Z) :=
  (λ u, let g := filter (λ m, m_user m = u) rows in
        (u, sql_count g,
         sql_sum ((λ m, case_when (m_closed m = 0)) <$> g),
         sql_sum ((λ m, case_when (m_closed m = 1)) <$> g)))
    <$> merge_sort string_le (remove_dups (m_user <$> rows)).

(** [if row[0]]: a user name is true when it is not empty. *)
Definition truthy (s : string) : bool := bool_decide (s ≠ EmptyString).

(** The body of [for row in rows]. *)
Definition add_counted_user (stats : gmap string counts)
    (row : string * Z * option Z * option Z) : gmap string counts :=
  if truthy row.1.1.1
  then <[row.1.1.1 := Counts (or_0 (Some row.1.1.2)) (or_0 row.1.2) (or_0 row.2)]> stats
  else stats.

(** The body of [for user in users]. *)
Definition add_missing_user (stats : gmap string counts) (user : string)
    : gmap string counts :=
  if bool_decide (user ∉ dom stats) then <[user := Counts 0 0 0]> stats else stats.

Definition get_mistake_stats : M (gmap string counts) :=
  rows ← select (λ d, sql_stats_by_user (mistakes d));
  let stats := foldl add_counted_user ∅ rows in
  users ← select users;
  let stats := foldl add_missing_user stats users in
  ret stats.

(** [FROM users u LEFT JOIN mistakes m ON u.name = m.user]: a user
    without incidents keeps one row, with NULL for the columns of [m]. *)
Definition joined_rows (ms : list mistake) (u : string) : list (string * option mistake) :=
  match filter (λ m, u = m_user m) ms with
  | [] => [(u, None)]
  | matched => (λ m, (u, Some m)) <$> matched
  end.

Definition left_join_mistakes (us : list string) (ms : list mistake)
    : list (string * option mistake) :=
  u ← us; joined_rows ms u.

(** [CASE WHEN m.closed = v THEN 1 ELSE 0 END] on a joined row: the
    comparison with NULL is not true. *)
Definition case_closed (v : Z) (r : string * option mistake) : Z :=
  match r.2 with
  | Some m => case_when (m_closed m = v)
  | None => 0
  end.

(** [COUNT(m.id)] counts the rows where [m.id] is not NULL. *)
Definition sql_count_id_not_null (g : list (string * option mistake)) : Z :=
  sql_count (filter (λ r, is_Some r.2) g).

(** [SELECT u.name, SUM(...) as active, SUM(...) as closed, COUNT(m.id)
    as total ... GROUP BY u.name ORDER BY u.name] *)
Definition sql_users_stats (d : db) : list (string * option Z * option Z * Z) :=
  let joined := left_join_mistakes (users d) (mistakes d) in
  (λ u, let g := filter (λ r, r.1 = u) joined in
        (u, sql_sum (case_closed 0 <$> g), sql_sum (case_closed 1 <$> g),
         sql_count_id_not_null g))
    <$> merge_sort string_le (remove_dups (fst <$> joined)).

Definition get_users_stats : M (list (string * option Z * option Z * Z)) :=
  select sql_users_stats.

(** ** Operations that depend on SQLite's date functions *)

(** [date >= ?] against a timestamp SQLite computed: not true when that
    timestamp is NULL. *)
Definition since (cutoff : option Z) (m : mistake) : Prop :=
  match cutoff with
  | Some t => t ≤ m_date m
  | None => False
  end.

#[local] Instance since_dec cutoff m : Decision (since cutoff m).
Proof. unfold since. destruct cutoff; apply _. Defined.

Section DateFunctions.

(** [datetime('now', '-<days> days')] as a timestamp; NULL when SQLite
    rejects the modifier or the date. *)
Variable datetime_now_minus_days : Z → option Z.

(** The WHERE clause of [get_week_mistakes] on [m.date]. *)
Variable in_week : Z → bool.

(** [strftime('%Y', date) = str(year) AND strftime('%m', date) =
    str(month).zfill(2)] *)
Variable in_month : Z → Z → Z → bool.

Definition get_period_stats (days : Z) : M report :=
  result ← select (λ d,
    sql_report_row (filter (since (datetime_now_minus_days days)) (mistakes d)));
  top_users ← select (λ d,
    sql_top_users (filter (since (datetime_now_minus_days days)) (mistakes d)));
  ret (make_report result top_users).

(** [FROM mistakes m JOIN users u ON m.user = u.name] *)
Definition join_users (d : db) : list (mistake * string) :=
  m ← mistakes d;
  (λ u, (m, u)) <$> filter (λ u, m_user m = u) (users d).

Definition date_desc_joined (a b : mistake * string) : Prop := date_desc a.1 b.1.

#[local] Instance date_desc_joined_dec a b : Decision (date_desc_joined a b).
Proof. unfold date_desc_joined. apply _. Defined.

(** The body starts with [self.cursor]. *)
Definition get_week_mistakes (year week : Z) : M (list (mistake * string)) :=
  self_attr "cursor";;
  select (λ d,
    merge_sort date_desc_joined (filter (λ r, in_week (m_date r.1) = true) (join_users d))).

Definition get_month_mistakes (year month : Z) : M (list (mistake * string)) :=
  self_attr "cursor";;
  select (λ d, filter (λ r, in_month year month (m_date r.1) = true) (join_users d)).

(** [strftime('%Y-%m', date)] *)
Variable strftime_Y_m : Z → string.

(** The grouping key [strftime('%Y-%m', m.date)] of a joined row; NULL
    on the row of a user without incidents. *)
Definition month_of (r : string * option mistake) : option string :=
  strftime_Y_m ∘ m_date <$> r.2.

(** [ORDER BY month DESC]: NULL sorts below every text. *)
Definition month_desc (a b : option string) : Prop :=
  match b, a with
  | None, _ => True
  | Some _, None => False
  | Some y, Some x => string_le y x
  end.

#[local] Instance month_desc_dec a b : Decision (month_desc a b).
Proof. unfold month_desc. destruct b, a; apply _. Defined.

(** [COUNT(CASE WHEN m.closed = v THEN 1 END)] *)
Definition sql_count_closed (v : Z) (g : list (string * option mistake)) : Z :=
  sql_count (filter (λ r, m_closed <$> r.2 = Some v) g).

Definition get_user_detailed_stats (user_name : string)
    : M (list (option string * Z * Z * Z)) :=
  self_attr "cursor";;
  select (λ d,
    let joined :=
      filter (λ r, r.1 = user_name) (left_join_mistakes (users d) (mistakes d)) in
    (λ k, let g := filter (λ r, month_of r = k) joined in
          (k, sql_count_closed 0 g, sql_count_closed 1 g, sql_count_id_not_null g))
      <$> merge_sort month_desc (remove_dups (month_of <$> joined))).

End DateFunctions.

(** ** The rest of the repository *)

(** [GROUP_CONCAT(x, sep)] over the texts of a group, in the order of the
    rows: NULL when the group has no text. *)
Definition sql_group_concat (sep : string) (texts : list string) : option string :=
  match texts with
  | [] => None
  | t :: ts => Some (foldl (λ acc x, acc +:+ sep +:+ x) t ts)
  end.

(** The texts [LEFT JOIN comments c ON m.id = c.mistake_id] joins to an
    incident. *)
Definition comment_texts (d : db) (m : mistake) : list string :=
  c_text <$> filter (λ c, c_mistake_id c = m_id m) (comments d).

(** [SELECT m.*, GROUP_CONCAT(c.text) as comments ... GROUP BY m.id]:
    [id] is the primary key, so a group is one incident with the
    comments joined to it. *)
Definition with_comments (d : db) (m : mistake) : mistake * option string :=
  (m, sql_group_concat "," (comment_texts d m)).

(** [row = cursor.fetchone(); return dict(row) if row else None] *)
Definition get_mistake (mistake_id : Z) : M (option (mistake * option string)) :=
  rows ← select (λ d,
    with_comments d <$> filter (λ m, m_id m = mistake_id) (mistakes d));
  ret (head rows).

Definition date_desc_commented (a b : mistake * option string) : Prop :=
  date_desc a.1 b.1.

#[local] Instance date_desc_commented_dec a b : Decision (date_desc_commented a b).
Proof. unfold date_desc_commented. apply _. Defined.

#[local] Instance date_desc_commented_total : Total date_desc_commented.
Proof. intros a b. unfold date_desc_commented, date_desc. lia. Qed.

#[local] Instance date_desc_commented_trans : Transitive date_desc_commented.
Proof. intros a b c. unfold date_desc_commented, date_desc. lia. Qed.

Section UserMistakes.

(** The comments that join the incident with the given id, in the order
    in which the plan of this query hands them to GROUP_CONCAT.  SQLite
    does not fix that order, and here it is not the order of insertion
    (the join runs over an automatic index). *)
Variable joined_comments : db → Z → list comment.


End UserMistakes.

(** The labels of [get_priority_stats]: "Обычный" and "Критический". *)
Inductive priority_name : Type :=
  | Ordinary
  | Critical.

(** [CASE WHEN priority = 1 THEN ... WHEN priority = 2 THEN ... END]:
    NULL for any other priority. *)
Definition priority_label (priority : Z) : option priority_name :=
  if bool_decide (priority = 1) then Some Ordinary
  else if bool_decide (priority = 2) then Some Critical
  else None.

(** [SELECT ... as priority_name, COUNT( * ) FROM mistakes GROUP BY priority] *)
Definition sql_count_by_priority (rows : list mistake) : list (option priority_name * Z) :=
  (λ p, (priority_label p, sql_count (filter (λ m, m_priority m = p) rows)))
    <$> merge_sort Z.le (remove_dups (m_priority <$> rows)).

(** The dictionary with the two labels as keys. *)
Record priority_counts : Type := PriorityCounts {
  ordinary : Z;
  critical : Z
}.

(** [if row[0]: stats[row[0]] = row[1]] *)
Definition set_priority_count (stats : priority_counts) (row : option priority_name * Z)
    : priority_counts :=
  match row.1 with
  | Some Ordinary => PriorityCounts row.2 (critical stats)
  | Some Critical => PriorityCounts (ordinary stats) row.2
  | None => stats
  end.

Definition get_priority_stats : M priority_counts :=
  rows ← select (λ d, sql_count_by_priority (mistakes d));
  ret (foldl set_priority_count (PriorityCounts 0 0) rows).

(** The dictionary of [get_user_stats]. *)
Record user_counts : Type := UserCounts {
  u_total : Z;
  u_active : Z;
  u_closed : Z;
  u_priority_1 : Z;
  u_priority_2 : Z;
  u_priority_3 : Z
}.

Definition get_user_stats (user : string) : M user_counts :=
  result ← select (λ d, sql_report_row (filter (λ m, m_user m = user) (mistakes d)));
  ret (UserCounts (column_or_0 result 0) (column_or_0 result 1) (column_or_0 result 2)
                  (column_or_0 result 3) (column_or_0 result 4) (column_or_0 result 5)).

(** [create_tables] creates these tables and no other. *)
Definition tables : list string := ["users"; "mistakes"; "comments"]%string.

(** [cursor.execute] of a statement on a table: SQLite rejects it with
    "no such table" when the store does not have the table. *)
Definition execute_on {A} (table : string) (stmt : db → A * db) : M A :=
  if bool_decide (table ∈ tables)
  then execute stmt
  else sqlite_call;; raise (Sqlite3Error OperationalError).

(** [INSERT INTO mistake_history ...]; there is no handler around it. *)
Definition add_history (mistake_id : Z) (action : string)
    (old_value new_value : option string) : M unit :=
  execute_on "mistake_history" (λ d, (tt, d));;
  commit.

(** [ORDER BY date ASC] *)
Definition date_asc (a b : mistake) : Prop := m_date a ≤ m_date b.

#[local] Instance date_asc_dec a b : Decision (date_asc a b).
Proof. unfold date_asc. apply _. Defined.

#[local] Instance date_asc_total : Total date_asc.
Proof. intros a b. unfold date_asc. lia. Qed.

#[local] Instance date_asc_trans : Transitive date_asc.
Proof. intros a b c. unfold date_asc. lia. Qed.

(** [date <= ?] against a timestamp SQLite computed: not true when that
    timestamp is NULL. *)
Definition until (cutoff : option Z) (m : mistake) : Prop :=
  match cutoff with
  | Some t => m_date m ≤ t
  | None => False
  end.

#[local] Instance until_dec cutoff m : Decision (until cutoff m).
Proof. unfold until. destruct cutoff; apply _. Defined.

Section OldMistakes.

(** [datetime('now', '-<days> days')], as for the reports. *)
Variable datetime_now_minus_days : Z → option Z.

(** [SELECT * FROM mistakes WHERE closed = 0 AND date <= datetime('now', ?)
    ORDER BY date ASC] *)
Definition get_old_mistakes (days : Z) : M (list mistake) :=
  select (λ d,
    merge_sort date_asc
      (filter (λ m, m_closed m = 0 ∧ until (datetime_now_minus_days days) m)
              (mistakes d))).

End OldMistakes.

(** ** The commands that add an incident and delete a member *)

(** What [group_handler] replies to ["+1 косяк ..."] once the text has
    matched. *)
Inductive add_reply : Type :=
  | ReplyUnknownUser (users : list string)
  | ReplyAdded (mistake_id : Z)
  | ReplyAddError.

(** [if mistake_id]: [None] and 0 are false. *)
Definition truthy_id (mistake_id : option Z) : bool :=
  match mistake_id with
  | Some id => bool_decide (id ≠ 0)
  | None => false
  end.

(** The branch of [group_handler] after the match: [user] and [desc] are
    its groups, [priority] is 2 when the text has "!!!" and 1 otherwise. *)
Definition group_handler_add (now : Z) (user desc : string) (priority : Z)
    : M add_reply :=
  known ← get_users;
  if bool_decide (user ∉ known) then
    users ← get_users;
    ret (ReplyUnknownUser users)
  else
    mistake_id ← add_mistake now user desc priority;
    if truthy_id mistake_id
    then ret (ReplyAdded (default 0 mistake_id))
    else ret ReplyAddError.




(** ** config.py *)

(** The exceptions the module can raise while it is imported: [int(None)]
    is a [TypeError], [int] of a text that is no integer a [ValueError],
    and the three checks at the end raise a [ValueError] that names the
    variable. *)
Inductive config_error : Type :=
  | TypeError
  | ValueError_invalid_literal (text : string)
  | ValueError_not_set (variable : string).

(** The four names the module defines. *)
Record config : Type := Config {
  BOT_TOKEN : string;
  GROUP_CHAT_ID : Z;
  ADMIN_IDS : list Z;
  DB_PATH : string
}.

(** [s.split(sep)] for a separator of one character. *)
Fixpoint split (sep : ascii) (s : string) : list string :=
  match s with
  | EmptyString => [EmptyString]
  | String c rest =>
      if decide (c = sep) then EmptyString :: split sep rest
      else match split sep rest with
           | piece :: pieces => String c piece :: pieces
           | [] => [String c EmptyString]
           end
  end.

(** [sep.join(pieces)] *)
Fixpoint join (sep : ascii) (pieces : list string) : string :=
  match pieces with
  | [] => EmptyString
  | [piece] => piece
  | piece :: pieces => piece +:+ String sep (join sep pieces)
  end.

(** [user_id in ADMIN_IDS], from govno.py. *)
Definition is_admin (admin_ids : list Z) (user_id : Z) : bool :=
  bool_decide (user_id ∈ admin_ids).

Section Config.

(** Python's [int] on a [str]: [None] where it raises [ValueError]. *)
Variable int : string → option Z.

(** [[int(id) for id in pieces]]: the first text that is no integer
    raises. *)
Fixpoint int_each (pieces : list string) : config_error + list Z :=
  match pieces with
  | [] => inr []
  | id :: pieces =>
      match int id with
      | None => inl (ValueError_invalid_literal id)
      | Some n =>
          match int_each pieces with
          | inl e => inl e
          | inr ns => inr (n :: ns)
          end
      end
  end.

(** The non-empty pieces of [os.getenv('ADMIN_IDS', '')]. *)
Definition admin_pieces (environ : gmap string string) : list string :=
  filter (λ id, id ≠ EmptyString) (split "," (default EmptyString (environ !! "ADMIN_IDS"))).

(** The body of the module, on the environment [load_dotenv] leaves. *)
Definition load_config (environ : gmap string string) : config_error + config :=
  let bot_token := environ !! "BOT_TOKEN" in
  match environ !! "GROUP_CHAT_ID" with
  | None => inl TypeError
  | Some text =>
      match int text with
      | None => inl (ValueError_invalid_literal text)
      | Some group_chat_id =>
          match int_each (admin_pieces environ) with
          | inl e => inl e
          | inr admin_ids =>
              let db_path := default "kosyaki.db"%string (environ !! "DB_PATH") in
              match bot_token with
              | None | Some EmptyString => inl (ValueError_not_set "BOT_TOKEN")
              | Some bot_token =>
                  if bool_decide (group_chat_id = 0)
                  then inl (ValueError_not_set "GROUP_CHAT_ID")
                  else match admin_ids with
                       | [] => inl (ValueError_not_set "ADMIN_IDS")
                       | _ => inr (Config bot_token group_chat_id admin_ids db_path)
                       end
              end
          end
      end
  end.

End Config.

(** ** Notions used by the statements *)






(** The integers SQLite stores: 64 bits, signed. *)
Definition in_int64 (n : Z) : Prop :=
  -9223372036854775808 ≤ n ≤ 9223372036854775807.

(** The length in bytes of the UTF-8 form of a text of code points
    U+0000..U+00FF. *)
Fixpoint utf8_length (s : string) : Z :=
  match s with
  | EmptyString => 0
  | String c s' => (if in_range 0 127 c then 1 else 2) + utf8_length s'
  end.

(** The default of SQLite's limit on the bytes of a LIKE pattern. *)
Definition SQLITE_MAX_LIKE_PATTERN_LENGTH : Z := 50000.

(** The pattern [f"%{text}%"] is one that LIKE accepts. *)
Definition like_pattern_fits (text : string) : Prop :=
  utf8_length ("%" +:+ text +:+ "%") ≤ SQLITE_MAX_LIKE_PATTERN_LENGTH.

(** The parameters of a search that SQLite accepts: the priority fits 64
    bits, the two patterns fit the limit of LIKE. *)
Definition search_params_fit (params : search_params) : Prop :=
  (∀ user, p_user params = Some user → like_pattern_fits user) ∧
  (∀ priority, p_priority params = Some priority → in_int64 priority) ∧
  (∀ text, p_text params = Some text → like_pattern_fits text).


(** The counts of the incidents of one owner. *)
Definition owner_counts (rows : list mistake) (u : string) : counts :=
  let g := filter (λ m, m_user m = u) rows in
  Counts (sql_count g)
         (sql_count (filter (λ m, m_closed m = 0) g))
         (sql_count (filter (λ m, m_closed m = 1) g)).

(** An incident keeps its columns, except that [closed] may become 1. *)
Definition same_or_closed (m m' : mistake) : Prop :=
  m_user m' = m_user m ∧ m_description m' = m_description m ∧
  m_date m' = m_date m ∧ m_priority m' = m_priority m ∧
  (m_closed m' = m_closed m ∨ m_closed m' = 1).

(** The incidents that two stores share by id differ at most in that. *)
Definition only_closes (d d' : db) : Prop :=
  ∀ m m', m ∈ mistakes d → m' ∈ mistakes d' → m_id m' = m_id m → same_or_closed m m'.

(** The sum of the counts of a ranking. *)
Definition ranking_sum (ranking : list (string * Z)) : Z :=
  foldr Z.add 0 (snd <$> ranking).

(** The distinct owners of a list of incidents. *)
Definition owners (rows : list mistake) : list string :=
  remove_dups (m_user <$> rows).

(** No failure among the next [n] calls into SQLite. *)
Definition no_fault (n : nat) (w : world) : Prop :=
  ∀ e, Some e ∉ take n (w_faults w).

(** What holds of every store the repository builds: ids come from the
    counter, priorities are 1 or 2, the closed flag is 0 or 1, names are
    unique. *)
Record store_invariant (d : db) : Prop := StoreInvariant {
  inv_ids : ∀ m, m ∈ mistakes d → 0 < m_id m ≤ mistakes_seq d;
  inv_seq : 0 ≤ mistakes_seq d;
  inv_ids_unique : NoDup (m_id <$> mistakes d);
  inv_priority : ∀ m, m ∈ mistakes d → m_priority m = 1 ∨ m_priority m = 2;
  inv_closed : ∀ m, m ∈ mistakes d → m_closed m = 0 ∨ m_closed m = 1;
  inv_users : NoDup (users d)
}.

(** ** Sample stores *)

Definition sample_db : db :=
  Db ["A"; "B"; "C"]%string
     [Mistake 1 "A" "late delivery" 100 2 0;
      Mistake 2 "A" "7 boxes lost" 200 1 1;
      Mistake 7 "B" "wrong invoice" 300 1 0]
     [Comment 1 2 42 "fixed" 250]
     7 1.

(** Six staff members with one incident each. *)
Definition six_owners_db : db :=
  Db ["A"; "B"; "C"; "D"; "E"; "F"]%string
     [Mistake 1 "A" "a" 10 1 0; Mistake 2 "B" "b" 20 1 0;
      Mistake 3 "C" "c" 30 1 0; Mistake 4 "D" "d" 40 1 0;
      Mistake 5 "E" "e" 50 1 0; Mistake 6 "F" "f" 60 1 0]
     [] 6 0.


(** * Properties *)

(** ** Running the examples of the specification *)

Example add_then_close :
  ((add_user "A";; add_mistake 100 "A" "late delivery" 2;;
    close_mistake 1;; mistake_exists 1) (healthy empty_db)).1 = Ok true.
Proof. vm_compute. reflexivity. Qed.

Example search_text_7 :
  match
   ((add_mistake 1 "A" "x" 1;; add_mistake 2 "A" "x7y" 1;; add_mistake 3 "A" "z" 1;;
    add_mistake 4 "A" "z" 1;; add_mistake 5 "A" "z" 1;; add_mistake 6 "A" "z" 1;;
    add_mistake 7 "A" "z" 1;;
    search_mistakes (SearchParams None None None (Some "7"%string))) (healthy empty_db)).1
  with
  | Ok rows => m_id <$> rows = [7; 2]
  | Raise _ => False
  end.
Proof. vm_compute. reflexivity. Qed.

(** ** Evaluation on a healthy store *)

Lemma db_eta d :
  Db (users d) (mistakes d) (comments d) (mistakes_seq d) (comments_seq d) = d.
Proof. by destruct d. Qed.

Lemma close_mistake_healthy d mistake_id :
  close_mistake mistake_id (healthy d)
  = (Ok true, healthy (set_mistakes (close_row mistake_id <$> mistakes d) d)).
Proof. reflexivity. Qed.

Lemma mistake_exists_healthy d mistake_id :
  mistake_exists mistake_id (healthy d)
  = (Ok (bool_decide (sql_count_id mistake_id d > 0)), healthy d).
Proof. reflexivity. Qed.

Lemma clear_mistakes_healthy d :
  clear_mistakes (healthy d)
  = (Ok true, healthy (Db (users d) [] [] (mistakes_seq d) (comments_seq d))).
Proof. reflexivity. Qed.

Lemma filter_nil_iff {A} (P : A → Prop) `{!∀ x, Decision (P x)} (l : list A) :
  filter P l = [] ↔ ∀ x, x ∈ l → ¬ P x.
Proof.
  split.
  - intros Hnil x Hx HP. by eapply filter_nil_not_elem_of.
  - intros Hno. induction l as [|x l IH]; [done|].
    rewrite filter_cons_False; [|apply Hno; left].
    apply IH. intros y Hy. apply Hno. by right.
Qed.

Lemma filter_all {A} (P : A → Prop) `{!∀ x, Decision (P x)} (l : list A) :
  (∀ x, x ∈ l → P x) → filter P l = l.
Proof.
  induction l as [|x l IH]; intros Hall; [done|].
  rewrite filter_cons_True; [|apply Hall; left].
  f_equal. apply IH. intros y Hy. apply Hall. by right.
Qed.

Lemma sql_count_pos_iff {A} (l : list A) : sql_count l > 0 ↔ l ≠ [].
Proof. unfold sql_count. destruct l; simpl; split; (done || lia). Qed.

Lemma close_row_id mistake_id m : m_id (close_row mistake_id m) = m_id m.
Proof. unfold close_row. by case_bool_decide. Qed.

Lemma close_row_other mistake_id m : m_id m ≠ mistake_id → close_row mistake_id m = m.
Proof. unfold close_row. by case_bool_decide. Qed.

Lemma close_row_closed mistake_id m :
  m_id m = mistake_id → m_closed (close_row mistake_id m) = 1.
Proof. unfold close_row. by case_bool_decide. Qed.

Lemma close_row_idemp mistake_id m :
  close_row mistake_id (close_row mistake_id m) = close_row mistake_id m.
Proof.
  destruct (decide (m_id m = mistake_id)) as [Hid|Hid].
  - unfold close_row. rewrite (bool_decide_true _ Hid). simpl.
    by destruct (bool_decide _).
  - by rewrite !(close_row_other _ m Hid).
Qed.

(** A statement about every row of a table that is given row by row. *)
Ltac each_row :=
  let m := fresh "m" in
  let Hm := fresh "Hm" in
  intros m Hm; simpl in Hm;
  repeat (apply elem_of_cons in Hm as [->|Hm]);
  [..|by apply elem_of_nil in Hm]; simpl; try done.

(** ** Closing an incident *)

(** C2, as the code has it: without a store failure [close_mistake]
    returns [True] for every id that fits SQLite's 64 bits.  The rows with
    that id get [closed = 1], every other row and table is untouched, a
    second call changes nothing and also returns [True]; for an id that is
    not in the store nothing changes, and it is [mistake_exists] that
    reports the id as missing: the command handler asks it first and
    answers "not found" without calling [close_mistake].  [False] comes
    back only when one of the two calls into SQLite fails. *)
Theorem close_mistake_flag_flip (d : db) (mistake_id : Z) :
  in_int64 mistake_id →
  ∃ d',
    close_mistake mistake_id (healthy d) = (Ok true, healthy d') ∧
    users d' = users d ∧ comments d' = comments d ∧
    (∀ m, m ∈ mistakes d → m_id m = mistake_id →
       Mistake (m_id m) (m_user m) (m_description m) (m_date m) (m_priority m) 1
         ∈ mistakes d') ∧
    (∀ m, m ∈ mistakes d' → m_id m = mistake_id → m_closed m = 1) ∧
    (∀ m, m_id m ≠ mistake_id → m ∈ mistakes d' ↔ m ∈ mistakes d) ∧
    close_mistake mistake_id (healthy d') = (Ok true, healthy d') ∧
    ((∀ m, m ∈ mistakes d → m_id m ≠ mistake_id) →
       d' = d ∧
       mistake_exists mistake_id (healthy d) = (Ok false, healthy d) ∧
       ∀ now comment user_id,
         group_handler_close now mistake_id comment user_id (healthy d)
         = (Ok ReplyNotFound, healthy d)) ∧
    (∀ fs, (close_mistake mistake_id (World d fs)).1 = Ok false →
       ∃ e, Some e ∈ take 2 fs).
Proof.
  intros _. exists (set_mistakes (close_row mistake_id <$> mistakes d) d).
  split; [apply close_mistake_healthy|].
  split; [done|]. split; [done|]. simpl.
  split.
  { intros m Hm Hid. apply list_elem_of_fmap. exists m. split; [|done].
    unfold close_row. by rewrite bool_decide_true. }
  split.
  { intros m' Hm' Hid. apply list_elem_of_fmap in Hm' as (m & -> & Hm).
    apply close_row_closed. by rewrite close_row_id in Hid. }
  split.
  { intros m Hid. rewrite list_elem_of_fmap. split.
    - intros (m0 & -> & Hm0). rewrite close_row_id in Hid.
      by rewrite close_row_other.
    - intros Hm. exists m. by rewrite close_row_other. }
  split.
  { rewrite close_mistake_healthy. simpl. do 2 f_equal. unfold set_mistakes. simpl.
    f_equal. rewrite <- list_fmap_compose. apply list_fmap_ext.
    intros i m _. simpl. apply close_row_idemp. }
  split.
  { intros Hnone.
    assert (close_row mistake_id <$> mistakes d = mistakes d) as Hsame.
    { rewrite <- (list_fmap_id (mistakes d)) at 2. apply list_fmap_ext.
      intros i m Hm. simpl. apply close_row_other, Hnone.
      by eapply list_elem_of_lookup_2. }
    assert (bool_decide (sql_count_id mistake_id d > 0) = false) as Hcount.
    { apply bool_decide_false. unfold sql_count_id. rewrite sql_count_pos_iff.
      intros Hne. apply Hne. apply filter_nil_iff. intros m Hm. by apply Hnone. }
    split; [|split].
    - unfold set_mistakes. rewrite Hsame. apply db_eta.
    - by rewrite mistake_exists_healthy, Hcount.
    - intros now comment user_id. unfold group_handler_close.
      unfold mbind at 1, M_bind at 1. by rewrite mistake_exists_healthy, Hcount. }
  intros fs Hfalse.
  destruct fs as [|[e|] fs]; [done|exists e; left|].
  destruct fs as [|[e|] fs]; [done|exists e; right; left|done].
Qed.

(** The theorem at incident 1 of the sample store, and at the id 5 that
    the store does not have. *)
Lemma close_mistake_flag_flip_witness :
  (∃ d', close_mistake 1 (healthy sample_db) = (Ok true, healthy d') ∧
         (∀ m, m ∈ mistakes d' → m_id m = 1 → m_closed m = 1)) ∧
  (∃ d', close_mistake 5 (healthy sample_db) = (Ok true, healthy d') ∧
         d' = sample_db ∧
         mistake_exists 5 (healthy sample_db) = (Ok false, healthy sample_db) ∧
         group_handler_close 400 5 (Some "fixed"%string) 42 (healthy sample_db)
         = (Ok ReplyNotFound, healthy sample_db)).
Proof.
  assert (in_int64 1 ∧ in_int64 5) as [H1 H5] by (unfold in_int64; lia).
  split.
  - destruct (close_mistake_flag_flip sample_db 1 H1)
      as (d' & Hrun & _ & _ & _ & Hclosed & _).
    exists d'. by split.
  - destruct (close_mistake_flag_flip sample_db 5 H5)
      as (d' & Hrun & _ & _ & _ & _ & _ & _ & Hmissing & _).
    exists d'. split; [done|].
    destruct Hmissing as (Hsame & Hexists & Hhandler);
      [unfold sample_db; each_row|].
    split; [done|]. split; [done|]. apply Hhandler.
Defined.

(** C2 as stated fails: closing the id 5, which the sample store does not
    have, reports success. *)
Lemma close_missing_incident_reports_success :
  sql_count_id 5 sample_db = 0 ∧
  (close_mistake 5 (healthy sample_db)).1 = Ok true ∧
  (close_mistake 5 (healthy sample_db)).1 ≠ Ok false.
Proof. vm_compute. repeat split; congruence. Qed.

(** ** Adding an incident *)

(** The priority [add_mistake] binds to the INSERT. *)
Lemma add_mistake_healthy d now user description priority :
  add_mistake now user description priority (healthy d)
  = (Ok (Some (mistakes_seq d + 1)),
     healthy (sql_insert_mistake user description now
                (if bool_decide (priority ∉ [1; 2]) then 1 else priority) d).2).
Proof. reflexivity. Qed.

Lemma add_mistake_rows fs d now user description priority :
  let d' := w_db (add_mistake now user description priority (World d fs)).2 in
  d' = d ∨
  d' = (sql_insert_mistake user description now
          (if bool_decide (priority ∉ [1; 2]) then 1 else priority) d).2.
Proof.
  destruct fs as [|[e|] fs]; [by right|by left|].
  destruct fs as [|[e|] fs]; by right.
Qed.

Lemma not_in_1_2 (priority : Z) : priority ∉ [1; 2] ↔ priority ≠ 1 ∧ priority ≠ 2.
Proof. rewrite !not_elem_of_cons. pose proof (not_elem_of_nil priority). tauto. Qed.

(** C7: a priority other than 1 and 2 is stored as 1, the priority 2 is
    stored as 2, and whatever the store does, every row [add_mistake] adds
    has priority 1 or 2. *)
Theorem add_mistake_normalizes_priority
    (d : db) (now : Z) (user description : string) (priority : Z) :
  (∃ stored,
     add_mistake now user description priority (healthy d)
     = (Ok (Some (mistakes_seq d + 1)),
        healthy (Db (users d)
                    (mistakes d ++
                       [Mistake (mistakes_seq d + 1) user description now stored 0])
                    (comments d) (mistakes_seq d + 1) (comments_seq d))) ∧
     (priority ≠ 1 → priority ≠ 2 → stored = 1) ∧
     (priority = 2 → stored = 2) ∧
     (stored = 1 ∨ stored = 2)) ∧
  (∀ fs m,
     m ∈ mistakes (w_db (add_mistake now user description priority (World d fs)).2) →
     m ∈ mistakes d ∨ m_priority m = 1 ∨ m_priority m = 2).
Proof.
  assert (∀ q, q = (if bool_decide (priority ∉ [1; 2]) then 1 else priority) →
               (priority ≠ 1 → priority ≠ 2 → q = 1) ∧ (priority = 2 → q = 2) ∧
               (q = 1 ∨ q = 2)) as Hq.
  { intros q ->. case_bool_decide as Hin.
    - apply not_in_1_2 in Hin. lia.
    - apply elem_of_cons in Hin as [->|Hin]; [lia|].
      apply list_elem_of_singleton in Hin as ->. lia. }
  split.
  - eexists. split; [apply add_mistake_healthy|]. by apply Hq.
  - intros fs m Hm.
    destruct (add_mistake_rows fs d now user description priority) as [Heq|Heq];
      simpl in Heq; rewrite Heq in Hm; [by left|].
    simpl in Hm. apply elem_of_app in Hm as [Hm|Hm]; [by left|].
    apply list_elem_of_singleton in Hm as ->. right. simpl. by apply Hq.
Qed.

(** The theorem at the priorities 3 and 2 of the specification's example. *)
Lemma add_mistake_normalizes_priority_witness :
  (add_mistake 100 "A" "late" 3 (healthy empty_db)).1 = Ok (Some 1) ∧
  m_priority <$>
    mistakes (w_db (add_mistake 100 "A" "late" 3 (healthy empty_db)).2) = [1] ∧
  m_priority <$>
    mistakes (w_db (add_mistake 100 "A" "late" 2 (healthy empty_db)).2) = [2].
Proof.
  destruct (add_mistake_normalizes_priority empty_db 100 "A" "late" 3)
    as [(q3 & Hrun3 & Hother & _ & _) _].
  destruct (add_mistake_normalizes_priority empty_db 100 "A" "late" 2)
    as [(q2 & Hrun2 & _ & Htwo & _) _].
  rewrite Hrun3, Hrun2. simpl.
  rewrite Hother by lia. rewrite Htwo by lia. done.
Defined.

(** ** Clearing the incidents *)



(** ** Deleting a staff member *)

Lemma delete_user_healthy d name :
  delete_user name (healthy d)
  = if bool_decide (sql_count_active name d > 0)
    then (Ok false, healthy d)
    else (Ok (bool_decide (sql_count (filter (λ u, u = name) (users d)) > 0)),
          healthy (set_users (filter (λ u, u ≠ name) (users d)) d)).
Proof.
  unfold delete_user, try_except_sqlite3_Error. simpl.
  unfold mbind, M_bind. simpl.
  by destruct (bool_decide (sql_count_active name d > 0)).
Qed.

Lemma count_active_pos d name :
  sql_count_active name d > 0 ↔ ∃ m, m ∈ mistakes d ∧ m_user m = name ∧ m_closed m = 0.
Proof.
  unfold sql_count_active. rewrite sql_count_pos_iff. split.
  - intros Hne.
    destruct (filter _ (mistakes d)) as [|m l] eqn:Hf; [done|].
    assert (m ∈ filter (λ m, m_user m = name ∧ m_closed m = 0) (mistakes d)) as Hm
      by (rewrite Hf; left).
    apply list_elem_of_filter in Hm as [[Hu Hc] Hm]. by exists m.
  - intros (m & Hm & Hu & Hc) Hnil.
    by eapply (filter_nil_not_elem_of _ _ m Hnil).
Qed.

Lemma count_name_pos (us : list string) name :
  sql_count (filter (λ u, u = name) us) > 0 ↔ name ∈ us.
Proof.
  rewrite sql_count_pos_iff. split.
  - intros Hne. destruct (filter _ us) as [|u l] eqn:Hf; [done|].
    assert (u ∈ filter (λ u, u = name) us) as Hu by (rewrite Hf; left).
    by apply list_elem_of_filter in Hu as [-> Hu].
  - intros Hin Hnil. by eapply (filter_nil_not_elem_of _ _ name Hnil).
Qed.

(** C6: on a store without failures, [delete_user] answers [False] and
    changes nothing when the name owns an incident with [closed = 0], and
    also when the name is not in [users]; otherwise it removes the name,
    and only the name, and answers [True].  A member without incidents is
    always deleted. *)
Theorem delete_user_guard (d : db) (name : string) :
  ((∃ m, m ∈ mistakes d ∧ m_user m = name ∧ m_closed m = 0) →
     delete_user name (healthy d) = (Ok false, healthy d)) ∧
  ((∀ m, m ∈ mistakes d → m_user m = name → m_closed m ≠ 0) →
     name ∉ users d →
     delete_user name (healthy d) = (Ok false, healthy d)) ∧
  ((∀ m, m ∈ mistakes d → m_user m = name → m_closed m ≠ 0) →
     name ∈ users d →
     ∃ d', delete_user name (healthy d) = (Ok true, healthy d') ∧
           (name ∉ users d') ∧
           (∀ u, u ≠ name → u ∈ users d' ↔ u ∈ users d) ∧
           mistakes d' = mistakes d ∧ comments d' = comments d) ∧
  ((∀ m, m ∈ mistakes d → m_user m ≠ name) →
     name ∈ users d →
     (delete_user name (healthy d)).1 = Ok true).
Proof.
  assert ((∀ m, m ∈ mistakes d → m_user m = name → m_closed m ≠ 0) →
          bool_decide (sql_count_active name d > 0) = false) as Hfree.
  { intros Hall. apply bool_decide_false. rewrite count_active_pos.
    intros (m & Hm & Hu & Hc). by apply (Hall m). }
  split; [|split; [|split]].
  - intros Hopen. rewrite delete_user_healthy.
    by rewrite bool_decide_true by (by apply count_active_pos).
  - intros Hall Hnot. rewrite delete_user_healthy, Hfree by done.
    rewrite bool_decide_false by (by rewrite count_name_pos).
    do 2 f_equal. unfold set_users. rewrite filter_all; [apply db_eta|].
    intros u Hu ->. done.
  - intros Hall Hin. eexists. rewrite delete_user_healthy, Hfree by done.
    rewrite bool_decide_true by (by rewrite count_name_pos).
    split; [done|]. simpl. split; [|split; [|done]].
    + rewrite list_elem_of_filter. tauto.
    + intros u Hne. rewrite list_elem_of_filter. tauto.
  - intros Hnone Hin. rewrite delete_user_healthy, Hfree.
    + by rewrite bool_decide_true by (by rewrite count_name_pos).
    + intros m Hm Hu. by destruct (Hnone m Hm).
Qed.

(** The theorem on the sample store: "A" owns the open incident 1, "C"
    owns nothing, "Z" is not a member. *)
Lemma delete_user_guard_witness :
  delete_user "A" (healthy sample_db) = (Ok false, healthy sample_db) ∧
  delete_user "Z" (healthy sample_db) = (Ok false, healthy sample_db) ∧
  (delete_user "C" (healthy sample_db)).1 = Ok true.
Proof.
  destruct (delete_user_guard sample_db "A") as (Hblocked & _).
  destruct (delete_user_guard sample_db "Z") as (_ & Hmissing & _).
  destruct (delete_user_guard sample_db "C") as (_ & _ & _ & Hfree).
  split; [|split].
  - apply Hblocked. eexists. split; [left|]. done.
  - apply Hmissing.
    + unfold sample_db. each_row.
    + unfold sample_db. simpl. rewrite !not_elem_of_cons.
      repeat split; (done || apply not_elem_of_nil).
  - apply Hfree.
    + unfold sample_db. each_row.
    + unfold sample_db. simpl. rewrite !elem_of_cons. tauto.
Defined.

(** ** Store failures and the repository boundary *)

(** The first three entries of a schedule of faults, case by case. *)
Ltac schedule fs :=
  let e1 := fresh "e" in
  let e2 := fresh "e" in
  let e3 := fresh "e" in
  destruct fs as [|[e1|] [|[e2|] [|[e3|] fs]]].

Ltac run_method :=
  simpl; unfold mbind, M_bind; simpl;
  repeat match goal with
         | |- context [bool_decide ?P] => destruct (bool_decide P); simpl
         end.




(** The three listings that start with [self.cursor] raise before they
    reach the store. *)
Lemma self_cursor_raises w : self_attr "cursor" w = (Raise (AttributeError "cursor"), w).
Proof. reflexivity. Qed.

Lemma listings_raise_AttributeError in_week in_month strftime_Y_m (w : world) :
  (∀ year week,
     get_week_mistakes in_week year week w = (Raise (AttributeError "cursor"), w)) ∧
  (∀ year month,
     get_month_mistakes in_month year month w = (Raise (AttributeError "cursor"), w)) ∧
  (∀ user_name,
     get_user_detailed_stats strftime_Y_m user_name w
     = (Raise (AttributeError "cursor"), w)).
Proof. repeat split. Qed.


(** ** Search: order, cap and filters *)

Lemma search_mistakes_healthy params d :
  search_mistakes params (healthy d)
  = (Ok (take 50 (merge_sort date_desc
           (filter (λ m, where_clause (search_conditions params) m = true)
                   (mistakes d)))),
     healthy d).
Proof. reflexivity. Qed.

Lemma StronglySorted_take {A} (R : relation A) (l : list A) n :
  StronglySorted R l → StronglySorted R (take n l).
Proof.
  intros Hl. rewrite <- (take_drop n l) in Hl.
  by apply StronglySorted_app_1_l in Hl.
Qed.

Lemma elem_of_take_elem_of {A} (l : list A) n x : x ∈ take n l → x ∈ l.
Proof.
  intros Hx. apply elem_of_take in Hx as (i & Hi & _).
  by eapply list_elem_of_lookup_2.
Qed.

(** C4: without filters the result is the first 50 rows of all the
    incidents, newest first, hence all of them when there are at most 50;
    with any filters that SQLite accepts the result is returned (no
    error), has at most 50 rows, is ordered by date descending, and holds
    only rows of the table that pass the filters. *)
Theorem search_newest_first_capped (d : db) :
  (∃ sorted,
     search_mistakes no_filters (healthy d) = (Ok (take 50 sorted), healthy d) ∧
     sorted ≡ₚ mistakes d ∧ StronglySorted date_desc sorted) ∧
  ((length (mistakes d) ≤ 50)%nat →
     ∃ rows, search_mistakes no_filters (healthy d) = (Ok rows, healthy d) ∧
             rows ≡ₚ mistakes d) ∧
  (∀ params,
     search_params_fit params →
     ∃ rows, search_mistakes params (healthy d) = (Ok rows, healthy d) ∧
             (length rows ≤ 50)%nat ∧
             StronglySorted date_desc rows ∧
             ∀ m, m ∈ rows →
                  m ∈ mistakes d ∧ where_clause (search_conditions params) m = true).
Proof.
  assert (filter (λ m, where_clause (search_conditions no_filters) m = true) (mistakes d)
          = mistakes d) as Hall by (by apply filter_all).
  split; [|split].
  - exists (merge_sort date_desc (mistakes d)).
    rewrite search_mistakes_healthy, Hall.
    split; [done|]. split; [apply merge_sort_Permutation|].
    apply StronglySorted_merge_sort; apply _.
  - intros Hlen. eexists. rewrite search_mistakes_healthy, Hall.
    split; [done|]. rewrite take_ge.
    + apply merge_sort_Permutation.
    + by rewrite (Permutation_length (merge_sort_Permutation _ _)).
  - intros params _. eexists. rewrite search_mistakes_healthy.
    split; [done|]. split; [|split].
    + rewrite length_take. lia.
    + apply StronglySorted_take, StronglySorted_merge_sort; apply _.
    + intros m Hm. apply elem_of_take_elem_of in Hm.
      rewrite merge_sort_Permutation in Hm.
      apply list_elem_of_filter in Hm. tauto.
Qed.

(** The theorem on the sample store, which has three incidents: without
    filters, and with the priority 2 as the filter. *)
Lemma search_newest_first_capped_witness :
  (∃ rows, search_mistakes no_filters (healthy sample_db) = (Ok rows, healthy sample_db) ∧
           rows ≡ₚ mistakes sample_db) ∧
  (∃ rows, search_mistakes (SearchParams None None (Some 2) None) (healthy sample_db)
           = (Ok rows, healthy sample_db) ∧
           (length rows ≤ 50)%nat ∧ ∀ m, m ∈ rows → m ∈ mistakes sample_db).
Proof.
  destruct (search_newest_first_capped sample_db) as (_ & Hsmall & Hany).
  split; [apply Hsmall; simpl; lia|].
  destruct (Hany (SearchParams None None (Some 2) None))
    as (rows & Hrun & Hlen & _ & Hrows).
  { split; [done|]. split; [|done]. intros priority [= <-]. unfold in_int64. lia. }
  exists rows. split; [done|]. split; [done|]. intros m Hm. by apply Hrows.
Defined.

Lemma search_conditions_status user status priority text m :
  where_clause (search_conditions (SearchParams user (Some status) priority text)) m
  = bool_decide (m_closed m = if bool_decide (status = "closed"%string) then 1 else 0)
    && where_clause (search_conditions (SearchParams user None priority text)) m.
Proof.
  unfold where_clause, search_conditions.
  destruct user, priority, text; simpl; btauto.
Qed.

(** C10: a status other than ["closed"] is searched exactly like
    ["open"]; with other filters that SQLite accepts the call is answered,
    and the rows are the first 50, newest first, of the incidents with
    [closed = 0] that pass the other filters. *)
Theorem search_status_defaults_to_open
    (d : db) (status : string) (user : option string) (priority : option Z)
    (text : option string) :
  status ≠ "closed"%string →
  (∀ w, search_mistakes (SearchParams user (Some status) priority text) w
        = search_mistakes (SearchParams user (Some "open"%string) priority text) w) ∧
  (search_params_fit (SearchParams user (Some status) priority text) →
   ∃ rows sorted,
     search_mistakes (SearchParams user (Some status) priority text) (healthy d)
     = (Ok rows, healthy d) ∧
     rows = take 50 sorted ∧
     sorted ≡ₚ filter (λ m, m_closed m = 0 ∧
                            where_clause
                              (search_conditions (SearchParams user None priority text)) m
                            = true)
                      (mistakes d) ∧
     StronglySorted date_desc sorted ∧
     ∀ m, m ∈ rows → m_closed m = 0).
Proof.
  intros Hstatus.
  assert (∀ m, where_clause
                 (search_conditions (SearchParams user (Some status) priority text)) m
               = true ↔
               m_closed m = 0 ∧
               where_clause
                 (search_conditions (SearchParams user None priority text)) m = true)
    as Hwhere.
  { intros m. rewrite search_conditions_status, (bool_decide_false _ Hstatus).
    rewrite andb_true_iff, bool_decide_eq_true. done. }
  split.
  - intros w. unfold search_mistakes, search_conditions. simpl.
    by rewrite (bool_decide_false _ Hstatus).
  - intros _. do 2 eexists. rewrite search_mistakes_healthy. split; [done|].
    rewrite (list_filter_iff _ _ _ Hwhere). split; [done|].
    split; [apply merge_sort_Permutation|].
    split; [apply StronglySorted_merge_sort; apply _|].
    intros m Hm. apply elem_of_take_elem_of in Hm.
    rewrite merge_sort_Permutation in Hm.
    apply list_elem_of_filter in Hm. tauto.
Qed.

(** The theorem for the misspelt status ["opne"] on the sample store:
    the two open incidents, the newer one first. *)
Lemma search_status_defaults_to_open_witness :
  ∃ rows,
    search_mistakes (SearchParams None (Some "opne"%string) None None) (healthy sample_db)
    = (Ok rows, healthy sample_db) ∧
    (length rows = 2)%nat ∧ StronglySorted date_desc rows ∧
    ∀ m, m ∈ rows → m_closed m = 0.
Proof.
  destruct (search_status_defaults_to_open sample_db "opne" None None None)
    as (_ & Hrows); [done|].
  destruct Hrows as (rows & sorted & Hrun & -> & Hperm & Hsorted & Hopen); [done|].
  exists (take 50 sorted). split; [done|].
  split; [|split; [by apply StronglySorted_take|done]].
  rewrite length_take, (Permutation_length Hperm). reflexivity.
Defined.

(** ** The text filter *)




Lemma append_nil_l (b : string) : EmptyString +:+ b = b.
Proof. reflexivity. Qed.

Lemma append_cons c (a b : string) : String c a +:+ b = String c (a +:+ b).
Proof. reflexivity. Qed.























(** [text_as_integer] is the decimal value, most significant digit first. *)
Lemma decimal_snoc acc s c :
  in_range 48 57 c = true →
  decimal acc (s +:+ String c EmptyString)
  = (λ v, 10 * v + (Z.of_N (N_of_ascii c) - 48)) <$> decimal acc s.
Proof.
  intros Hc. revert acc.
  induction s as [|x s IH]; intros acc; rewrite ?append_nil_l, ?append_cons; simpl.
  - by rewrite Hc.
  - destruct (in_range 48 57 x); [apply IH|done].
Qed.

Example text_as_integer_examples :
  text_as_integer "7" = Some 7 ∧ text_as_integer "007" = Some 7 ∧
  text_as_integer "42" = Some 42 ∧ text_as_integer EmptyString = None ∧
  text_as_integer "4a" = None ∧
  isdigit (String (ascii_of_N 178) EmptyString) = true ∧
  text_as_integer (String (ascii_of_N 178) EmptyString) = None.
Proof. vm_compute. done. Qed.

(** LIKE reads its operands up to the first U+0000: the text "a", then
    U+0000, then "zzz" matches a description with an "a" at its end, and
    the text "cd" does not match the description "ab", U+0000, "cd". *)
Example like_stops_at_nul :
  like ("%" +:+ String "a" (String "000" "zzz") +:+ "%") "data" = true ∧
  like ("%" +:+ String "a" (String "000" "zzz") +:+ "%") "late" = false ∧
  like "%cd%" (String "a" (String "b" (String "000" "cd"))) = false.
Proof. vm_compute. done. Qed.






(** ** Reports: the ranking and the total *)

Lemma ranking_sum_perm (l1 l2 : list (string * Z)) :
  l1 ≡ₚ l2 → ranking_sum l1 = ranking_sum l2.
Proof.
  unfold ranking_sum.
  induction 1 as [|x l1 l2 _ IH|x y l|l1 l2 l3 _ IH1 _ IH2]; csimpl; lia.
Qed.

Lemma ranking_sum_nonneg (l : list (string * Z)) :
  (∀ r, r ∈ l → 0 ≤ r.2) → 0 ≤ ranking_sum l.
Proof.
  unfold ranking_sum. induction l as [|r l IH]; intros Hpos; csimpl; [done|].
  assert (0 ≤ r.2) by (apply Hpos; left).
  assert (0 ≤ foldr Z.add 0 l.*2) by (apply IH; intros r' Hr'; apply Hpos; by right).
  lia.
Qed.

Lemma ranking_sum_take n (l : list (string * Z)) :
  (∀ r, r ∈ l → 0 ≤ r.2) → ranking_sum (take n l) ≤ ranking_sum l.
Proof.
  revert n. induction l as [|r l IH]; intros n Hpos; [by destruct n|].
  assert (∀ r', r' ∈ l → 0 ≤ r'.2) as Hl by (intros r' Hr'; apply Hpos; by right).
  destruct n as [|n].
  - by apply ranking_sum_nonneg.
  - specialize (IH n Hl). unfold ranking_sum in *. csimpl. lia.
Qed.

(** Exactly one key of a duplicate-free list is the key of a given row. *)
Lemma indicator_sum (keys : list string) (u : string) :
  NoDup keys → u ∈ keys →
  foldr Z.add 0 ((λ k, if decide (u = k) then 1 else 0) <$> keys) = 1.
Proof.
  induction 1 as [|k keys Hk _ IH]; intros Hu; [by apply elem_of_nil in Hu|].
  csimpl. destruct (decide (u = k)) as [->|Hne].
  - assert (foldr Z.add 0 ((λ k0, if decide (k = k0) then 1 else 0) <$> keys) = 0)
      as ->; [|done].
    clear IH Hu. induction keys as [|k' keys IH]; csimpl; [done|].
    apply not_elem_of_cons in Hk as [Hne Hk].
    rewrite decide_False by done. by rewrite IH.
  - apply elem_of_cons in Hu as [?|Hu]; [done|]. by rewrite IH.
Qed.

(** The groups of [GROUP BY user] partition the rows. *)
Lemma group_counts_sum (keys : list string) (rows : list mistake) :
  NoDup keys → (∀ m, m ∈ rows → m_user m ∈ keys) →
  foldr Z.add 0 ((λ u, sql_count (filter (λ m, m_user m = u) rows)) <$> keys)
  = sql_count rows.
Proof.
  intros Hkeys. induction rows as [|m rows IH]; intros Hcover.
  - unfold sql_count. csimpl. clear Hkeys Hcover. induction keys; csimpl; lia.
  - assert (foldr Z.add 0
              ((λ u, sql_count (filter (λ m0, m_user m0 = u) (m :: rows))) <$> keys)
            = foldr Z.add 0
                ((λ u, sql_count (filter (λ m0, m_user m0 = u) rows)) <$> keys)
              + foldr Z.add 0
                  ((λ k, if decide (m_user m = k) then 1 else 0) <$> keys)) as ->.
    { clear. induction keys as [|k keys IHk]; csimpl; [done|].
      rewrite IHk. rewrite filter_cons. unfold sql_count.
      destruct (decide (m_user m = k)); csimpl; lia. }
    rewrite IH by (intros m0 Hm0; apply Hcover; by right).
    rewrite indicator_sum; [|done|apply Hcover; left].
    unfold sql_count. csimpl. lia.
Qed.

Lemma count_by_user_sum (rows : list mistake) :
  ranking_sum (sql_count_by_user rows) = sql_count rows.
Proof.
  unfold ranking_sum, sql_count_by_user. rewrite <- list_fmap_compose.
  assert (∀ l1 l2 : list string, l1 ≡ₚ l2 →
            ∀ f : string → Z, foldr Z.add 0 (f <$> l1) = foldr Z.add 0 (f <$> l2))
    as Hperm.
  { induction 1 as [|x l1 l2 _ IH|x y l|l1 l2 l3 _ IH1 _ IH2]; intros f; csimpl;
      [done|rewrite IH; done|lia|by rewrite IH1]. }
  rewrite (Hperm _ _ (merge_sort_Permutation _ _)).
  apply group_counts_sum.
  - apply NoDup_remove_dups.
  - intros m Hm. apply elem_of_remove_dups, list_elem_of_fmap. by exists m.
Qed.

Lemma count_by_user_length (rows : list mistake) :
  length (sql_count_by_user rows) = length (owners rows).
Proof.
  unfold sql_count_by_user, owners. rewrite length_fmap.
  apply Permutation_length, merge_sort_Permutation.
Qed.

Lemma top_users_sum_le (rows : list mistake) :
  ranking_sum (sql_top_users rows) ≤ sql_count rows.
Proof.
  unfold sql_top_users. rewrite <- count_by_user_sum.
  rewrite <- (ranking_sum_perm _ _
                (merge_sort_Permutation count_desc (sql_count_by_user rows))).
  apply ranking_sum_take. intros r Hr.
  rewrite merge_sort_Permutation in Hr.
  apply list_elem_of_fmap in Hr as (u & -> & _). unfold sql_count. csimpl. lia.
Qed.

Lemma top_users_sum_eq (rows : list mistake) :
  (length (owners rows) ≤ 5)%nat →
  ranking_sum (sql_top_users rows) = sql_count rows.
Proof.
  intros Hlen. unfold sql_top_users. rewrite take_ge.
  - rewrite (ranking_sum_perm _ _ (merge_sort_Permutation count_desc _)).
    apply count_by_user_sum.
  - rewrite (Permutation_length (merge_sort_Permutation count_desc _)).
    by rewrite count_by_user_length.
Qed.

(** C3, as the code has it: in the all-time report and in the report
    of a period the counts of the ranking sum to at most the report's
    total, and to exactly the total when the incidents counted have at
    most five distinct owners; the all-time total is the total of the
    status statistics. *)
Theorem top_users_sum_bounded_by_total
    (datetime_now_minus_days : Z → option Z) (d : db) (days : Z) :
  ∃ all period status,
    get_all_stats (healthy d) = (Ok all, healthy d) ∧
    get_period_stats datetime_now_minus_days days (healthy d) = (Ok period, healthy d) ∧
    get_status_stats (healthy d) = (Ok status, healthy d) ∧
    r_total all = total status ∧
    r_total period
      = sql_count (filter (since (datetime_now_minus_days days)) (mistakes d)) ∧
    ranking_sum (r_top_users all) ≤ total status ∧
    ranking_sum (r_top_users period) ≤ r_total period ∧
    ((length (owners (mistakes d)) ≤ 5)%nat →
       ranking_sum (r_top_users all) = total status) ∧
    ((length (owners (filter (since (datetime_now_minus_days days)) (mistakes d))) ≤ 5)%nat →
       ranking_sum (r_top_users period) = r_total period).
Proof.
  do 3 eexists.
  split; [reflexivity|]. split; [reflexivity|]. split; [reflexivity|].
  csimpl. unfold column_or_0. csimpl.
  split; [done|]. split; [done|].
  split; [apply top_users_sum_le|]. split; [apply top_users_sum_le|].
  split; apply top_users_sum_eq.
Qed.

(** The theorem on the sample store, whose incidents have two owners. *)
Lemma top_users_sum_bounded_by_total_witness :
  ∃ all status,
    get_all_stats (healthy sample_db) = (Ok all, healthy sample_db) ∧
    get_status_stats (healthy sample_db) = (Ok status, healthy sample_db) ∧
    ranking_sum (r_top_users all) = total status.
Proof.
  destruct (top_users_sum_bounded_by_total (λ _, Some 0) sample_db 7)
    as (all & period & status & Hall & _ & Hstatus & _ & _ & _ & _ & Hfew & _).
  exists all, status. split; [done|]. split; [done|].
  apply Hfew. vm_compute. lia.
Defined.


(** C3 as stated fails: with six owners of one incident each the
    ranking of the all-time report sums to 5 while the status statistics
    report a total of 6, and the same for a period that covers all six. *)
Lemma top_users_sum_misses_sixth_owner :
  ∃ all period status,
    get_all_stats (healthy six_owners_db) = (Ok all, healthy six_owners_db) ∧
    get_period_stats (λ _, Some 0) 7 (healthy six_owners_db)
      = (Ok period, healthy six_owners_db) ∧
    get_status_stats (healthy six_owners_db) = (Ok status, healthy six_owners_db) ∧
    ranking_sum (r_top_users all) = 5 ∧ total status = 6 ∧
    ranking_sum (r_top_users period) = 5 ∧ r_total period = 6.
Proof. do 3 eexists. repeat split; vm_compute; reflexivity. Qed.

(** ** Per-user statistics *)

Lemma get_mistake_stats_healthy d :
  get_mistake_stats (healthy d)
  = (Ok (foldl add_missing_user
           (foldl add_counted_user ∅ (sql_stats_by_user (mistakes d)))
           (users d)),
     healthy d).
Proof. reflexivity. Qed.

Lemma add_missing_keeps (stats : gmap string counts) us k v :
  stats !! k = Some v → foldl add_missing_user stats us !! k = Some v.
Proof.
  revert stats. induction us as [|u us IH]; intros stats Hk; [done|].
  simpl. apply IH. unfold add_missing_user. case_bool_decide as Hu; [|done].
  apply not_elem_of_dom in Hu.
  rewrite lookup_insert_ne; [done|]. intros ->. congruence.
Qed.

Lemma add_missing_zero (stats : gmap string counts) us u :
  u ∈ us → stats !! u = None →
  foldl add_missing_user stats us !! u = Some (Counts 0 0 0).
Proof.
  revert stats. induction us as [|u' us IH]; intros stats Hu Hnone;
    [by apply elem_of_nil in Hu|].
  simpl. destruct (decide (u = u')) as [<-|Hne].
  - apply add_missing_keeps. unfold add_missing_user.
    rewrite bool_decide_true by by apply not_elem_of_dom.
    apply lookup_insert_eq.
  - apply elem_of_cons in Hu as [?|Hu]; [done|]. apply IH; [done|].
    unfold add_missing_user. case_bool_decide; [|done].
    by rewrite lookup_insert_ne.
Qed.

Lemma add_missing_covers (stats : gmap string counts) us u :
  u ∈ us → is_Some (foldl add_missing_user stats us !! u).
Proof.
  intros Hu. destruct (stats !! u) as [v|] eqn:Hlookup.
  - exists v. by apply add_missing_keeps.
  - eexists. by apply add_missing_zero.
Qed.

Lemma add_counted_other (stats : gmap string counts) rows k :
  (∀ row, row ∈ rows → row.1.1.1 ≠ k) →
  foldl add_counted_user stats rows !! k = stats !! k.
Proof.
  revert stats. induction rows as [|row rows IH]; intros stats Hrows; [done|].
  simpl. rewrite IH by (intros row' Hrow'; apply Hrows; by right).
  unfold add_counted_user. destruct (truthy _); [|done].
  apply lookup_insert_ne, Hrows. left.
Qed.

Lemma stats_by_user_keys rows row :
  row ∈ sql_stats_by_user rows → ∃ m, m ∈ rows ∧ m_user m = row.1.1.1.
Proof.
  unfold sql_stats_by_user. intros (u & -> & Hu)%list_elem_of_fmap. simpl.
  rewrite merge_sort_Permutation in Hu.
  apply elem_of_remove_dups, list_elem_of_fmap in Hu as (m & -> & Hm). by exists m.
Qed.

Lemma joined_rows_spec ms u :
  joined_rows ms u ≠ [] ∧
  (∀ r, r ∈ joined_rows ms u → r.1 = u) ∧
  ((∀ m, m ∈ ms → m_user m ≠ u) → ∀ r, r ∈ joined_rows ms u → r = (u, None)).
Proof.
  unfold joined_rows. destruct (filter _ ms) as [|m matched] eqn:Hf.
  - split; [done|]. split.
    + by intros r ->%list_elem_of_singleton.
    + by intros _ r ->%list_elem_of_singleton.
  - split; [done|]. split.
    + intros r (m' & -> & _)%list_elem_of_fmap. done.
    + intros Hnone. exfalso.
      assert (m ∈ filter (λ m, u = m_user m) ms) as Hm by (rewrite Hf; left).
      apply list_elem_of_filter in Hm as [Hu Hm]. by apply (Hnone m).
Qed.

Lemma left_join_elem us ms r :
  r ∈ left_join_mistakes us ms ↔ ∃ u, u ∈ us ∧ r ∈ joined_rows ms u.
Proof.
  unfold left_join_mistakes. rewrite list_elem_of_bind. split.
  - intros (u & Hr & Hu). by exists u.
  - intros (u & Hu & Hr). by exists u.
Qed.

Lemma sql_sum_zero (xs : list Z) :
  xs ≠ [] → (∀ x, x ∈ xs → x = 0) → sql_sum xs = Some 0.
Proof.
  intros Hne Hzero. unfold sql_sum. destruct xs as [|x xs]; [done|]. f_equal.
  clear Hne. induction (x :: xs) as [|y ys IH]; simpl; [done|].
  rewrite (Hzero y) by left. rewrite IH; [done|]. intros z Hz. apply Hzero. by right.
Qed.

Lemma sql_sum_is_Some (xs : list Z) : xs ≠ [] → is_Some (sql_sum xs).
Proof. destruct xs; [done|]. by eexists. Qed.

(** C8: both per-user statistics have an entry for every staff member;
    in [get_users_stats] no sum is NULL, and a member without incidents
    gets the number 0 in every count of both. *)
Theorem per_user_stats_cover_all_members (d : db) (u : string) :
  u ∈ users d →
  (∃ stats,
     get_mistake_stats (healthy d) = (Ok stats, healthy d) ∧
     is_Some (stats !! u) ∧
     ((∀ m, m ∈ mistakes d → m_user m ≠ u) → stats !! u = Some (Counts 0 0 0))) ∧
  (∃ rows,
     get_users_stats (healthy d) = (Ok rows, healthy d) ∧
     (∃ n_active n_closed n_total, (u, Some n_active, Some n_closed, n_total) ∈ rows) ∧
     (∀ row, row ∈ rows → is_Some row.1.1.2 ∧ is_Some row.1.2) ∧
     ((∀ m, m ∈ mistakes d → m_user m ≠ u) → (u, Some 0, Some 0, 0) ∈ rows)).
Proof.
  intros Hu. split.
  - eexists. split; [apply get_mistake_stats_healthy|]. split.
    + by apply add_missing_covers.
    + intros Hnone. apply add_missing_zero; [done|].
      rewrite add_counted_other; [done|].
      intros row (m & Hm & Hrow)%stats_by_user_keys <-. by apply (Hnone m).
  - exists (sql_users_stats d). split; [reflexivity|]. unfold sql_users_stats.
    set (joined := left_join_mistakes (users d) (mistakes d)).
    assert (∀ k, k ∈ merge_sort string_le (remove_dups joined.*1) →
                 filter (λ r, r.1 = k) joined ≠ []) as Hgroup.
    { intros k Hk. rewrite merge_sort_Permutation in Hk.
      apply elem_of_remove_dups, list_elem_of_fmap in Hk as (r & -> & Hr).
      intros Hnil. by eapply (filter_nil_not_elem_of _ _ r Hnil). }
    assert (u ∈ merge_sort string_le (remove_dups joined.*1)) as Hkey.
    { rewrite merge_sort_Permutation. apply elem_of_remove_dups, list_elem_of_fmap.
      destruct (joined_rows_spec (mistakes d) u) as (Hne & Hfst & _).
      destruct (joined_rows (mistakes d) u) as [|r rs] eqn:Hrows; [done|].
      exists r. split; [symmetry; apply Hfst; left|].
      apply left_join_elem. exists u. split; [done|]. rewrite Hrows. left. }
    split; [|split].
    + destruct (sql_sum_is_Some (case_closed 0 <$> filter (λ r, r.1 = u) joined))
        as [a Ha]; [by intros ?%fmap_nil_inv%Hgroup|].
      destruct (sql_sum_is_Some (case_closed 1 <$> filter (λ r, r.1 = u) joined))
        as [c Hc]; [by intros ?%fmap_nil_inv%Hgroup|].
      exists a, c, (sql_count_id_not_null (filter (λ r, r.1 = u) joined)).
      apply list_elem_of_fmap. exists u. split; [|done]. cbv beta zeta. by rewrite Ha, Hc.
    + intros row (k & -> & Hk)%list_elem_of_fmap. cbv beta zeta. simpl fst; simpl snd.
      split; apply sql_sum_is_Some; by intros ?%fmap_nil_inv%Hgroup.
    + intros Hnone. apply list_elem_of_fmap. exists u. split; [|done]. cbv beta zeta.
      assert (∀ r, r ∈ filter (λ r, r.1 = u) joined → r = (u, None)) as Hnull.
      { intros r [Hfst (u' & Hu' & Hr)%left_join_elem]%list_elem_of_filter.
        destruct (joined_rows_spec (mistakes d) u') as (_ & Hfst' & Hrow).
        rewrite (Hfst' r Hr) in Hfst. subst u'. by apply Hrow. }
      rewrite !sql_sum_zero.
      * do 2 f_equal. unfold sql_count_id_not_null.
        rewrite (proj2 (filter_nil_iff _ _)); [done|].
        intros r Hr. rewrite (Hnull r Hr). simpl. by intros [? ?].
      * by intros ?%fmap_nil_inv%Hgroup.
      * intros x (r & -> & Hr)%list_elem_of_fmap. by rewrite (Hnull r Hr).
      * by intros ?%fmap_nil_inv%Hgroup.
      * intros x (r & -> & Hr)%list_elem_of_fmap. by rewrite (Hnull r Hr).
Qed.

(** The theorem for "C" of the sample store, who has no incidents. *)
Lemma per_user_stats_cover_all_members_witness :
  (∃ stats,
     get_mistake_stats (healthy sample_db) = (Ok stats, healthy sample_db) ∧
     stats !! "C"%string = Some (Counts 0 0 0)) ∧
  (∃ rows,
     get_users_stats (healthy sample_db) = (Ok rows, healthy sample_db) ∧
     ("C"%string, Some 0, Some 0, 0) ∈ rows).
Proof.
  destruct (per_user_stats_cover_all_members sample_db "C")
    as [(stats & Hstats & _ & Hzero) (rows & Hrows & _ & _ & Hrow)].
  { unfold sample_db. simpl. rewrite !elem_of_cons. tauto. }
  assert (∀ m, m ∈ mistakes sample_db → m_user m ≠ "C"%string) as Hnone
    by (unfold sample_db; each_row).
  split.
  - exists stats. split; [done|]. by apply Hzero.
  - exists rows. split; [done|]. by apply Hrow.
Defined.

(** ** The invariant of the store *)

Lemma empty_db_invariant : store_invariant empty_db.
Proof.
  split; simpl; try (intros m Hm; by apply elem_of_nil in Hm); (lia || constructor).
Qed.

Lemma invariant_other_tables d d' :
  store_invariant d →
  mistakes d' = mistakes d → mistakes_seq d' = mistakes_seq d → users d' = users d →
  store_invariant d'.
Proof. intros [] Hm Hs Hu. split; rewrite ?Hm, ?Hs, ?Hu; done. Qed.

Lemma invariant_delete_user d d' name :
  store_invariant d →
  mistakes d' = mistakes d → mistakes_seq d' = mistakes_seq d →
  users d' = filter (λ u, u ≠ name) (users d) →
  store_invariant d'.
Proof.
  intros [] Hm Hs Hu. split; rewrite ?Hm, ?Hs, ?Hu; try done. by apply NoDup_filter.
Qed.

Lemma invariant_insert_user d d' name :
  store_invariant d → name ∉ users d →
  mistakes d' = mistakes d → mistakes_seq d' = mistakes_seq d →
  users d' = users d ++ [name] →
  store_invariant d'.
Proof.
  intros [] Hname Hm Hs Hu. split; rewrite ?Hm, ?Hs, ?Hu; try done.
  apply NoDup_app. split; [done|]. split; [|apply NoDup_singleton].
  by intros u Hin ->%list_elem_of_singleton.
Qed.

Lemma invariant_close d d' mistake_id :
  store_invariant d →
  mistakes d' = close_row mistake_id <$> mistakes d →
  mistakes_seq d' = mistakes_seq d → users d' = users d →
  store_invariant d'.
Proof.
  intros [Hids Hseq Hunique Hpriority Hclosed Husers] Hm Hs Hu.
  split; rewrite ?Hm, ?Hs, ?Hu; try done.
  - intros m' (m & -> & Hin)%list_elem_of_fmap. rewrite close_row_id. by apply Hids.
  - rewrite <- list_fmap_compose.
    erewrite list_fmap_ext; [exact Hunique|]. intros i m _. apply close_row_id.
  - intros m' (m & -> & Hin)%list_elem_of_fmap.
    unfold close_row. case_bool_decide; simpl; by apply Hpriority.
  - intros m' (m & -> & Hin)%list_elem_of_fmap.
    unfold close_row. case_bool_decide; simpl; [by right|by apply Hclosed].
Qed.

Lemma invariant_insert_mistake d d' user description date priority :
  store_invariant d → priority = 1 ∨ priority = 2 →
  mistakes d'
    = mistakes d ++ [Mistake (mistakes_seq d + 1) user description date priority 0] →
  mistakes_seq d' = mistakes_seq d + 1 → users d' = users d →
  store_invariant d'.
Proof.
  intros [Hids Hseq Hunique Hpriority Hclosed Husers] Hp Hm Hs Hu.
  split; rewrite ?Hm, ?Hs, ?Hu; try done; try lia.
  - intros m [Hin| ->%list_elem_of_singleton]%elem_of_app; simpl; [|lia].
    specialize (Hids m Hin). lia.
  - rewrite fmap_app. apply NoDup_app. split; [done|]. split; [|apply NoDup_singleton].
    intros id (m & -> & Hin)%list_elem_of_fmap Hnew%list_elem_of_singleton.
    simpl in Hnew. specialize (Hids m Hin). lia.
  - intros m [Hin| ->%list_elem_of_singleton]%elem_of_app; simpl; [by apply Hpriority|done].
  - intros m [Hin| ->%list_elem_of_singleton]%elem_of_app; simpl; [by apply Hclosed|by left].
Qed.

Lemma invariant_delete_mistakes d d' :
  store_invariant d →
  mistakes d' = [] → mistakes_seq d' = mistakes_seq d → users d' = users d →
  store_invariant d'.
Proof.
  intros [] Hm Hs Hu. split; rewrite ?Hm, ?Hs, ?Hu; try done;
    try (intros m Hin; by apply elem_of_nil in Hin).
  constructor.
Qed.

(** Every write operation keeps the invariant, whatever fails. *)
Lemma write_operations_keep_invariant (w : world) :
  store_invariant (w_db w) →
  (∀ name, store_invariant (w_db (add_user name w).2)) ∧
  (∀ name, store_invariant (w_db (delete_user name w).2)) ∧
  (∀ now user description priority,
     store_invariant (w_db (add_mistake now user description priority w).2)) ∧
  (∀ mistake_id, store_invariant (w_db (close_mistake mistake_id w).2)) ∧
  (∀ now mistake_id user_id text,
     store_invariant (w_db (add_comment now mistake_id user_id text w).2)) ∧
  store_invariant (w_db (clear_mistakes w).2).
Proof.
  destruct w as [d fs]. simpl. intros Hinv.
  split; [|split; [|split; [|split; [|split]]]]; intros.
  - unfold add_user, sql_insert_user, try_except_IntegrityError.
    schedule fs; simpl; unfold mbind, M_bind; simpl;
      try case_bool_decide; simpl;
      repeat match goal with
             | |- context [match ?e with _ => _ end] => is_var e; destruct e; simpl
             end;
      first [done | by eapply invariant_insert_user].
  - unfold delete_user, try_except_sqlite3_Error.
    schedule fs; run_method; first [done | by eapply invariant_delete_user].
  - destruct (add_mistake_rows fs d now user description priority) as [Heq|Heq];
      simpl in Heq; rewrite Heq; [done|].
    eapply invariant_insert_mistake; [done| |done..].
    case_bool_decide as Hin; [by left|].
    apply elem_of_cons in Hin as [->|Hin]; [by left|].
    apply list_elem_of_singleton in Hin as ->. by right.
  - unfold close_mistake, try_except_sqlite3_Error.
    schedule fs; run_method; first [done | by eapply invariant_close].
  - unfold add_comment, try_except_sqlite3_Error.
    schedule fs; run_method; first [done | by eapply invariant_other_tables].
  - unfold clear_mistakes, try_except_sqlite3_Error.
    schedule fs; run_method;
      first [done | by eapply invariant_other_tables | by eapply invariant_delete_mistakes].
Qed.

(** In a store with the invariant every id is positive: the -1 that
    [search_mistakes] binds for a text that is not a number matches none. *)
Lemma invariant_ids_positive d m : store_invariant d → m ∈ mistakes d → 0 < m_id m.
Proof. intros [Hids _ _ _ _ _] Hm. specialize (Hids m Hm). lia. Qed.

Lemma sample_db_invariant : store_invariant sample_db.
Proof.
  split; unfold sample_db; simpl.
  - each_row; lia.
  - lia.
  - repeat constructor; rewrite ?not_elem_of_cons; repeat split;
      (done || apply not_elem_of_nil).
  - each_row; tauto.
  - each_row; tauto.
  - repeat constructor; rewrite ?not_elem_of_cons; repeat split;
      (done || apply not_elem_of_nil).
Qed.

(** ** Staff members: adding and listing *)

Lemma string_compare_not_Gt_trans a b c :
  String.compare a b ≠ Gt → String.compare b c ≠ Gt → String.compare a c ≠ Gt.
Proof.
  revert b c. induction a as [|x a IH]; intros [|y b] [|z c]; simpl; try done.
  unfold Ascii.compare.
  destruct (N.compare_spec (N_of_ascii x) (N_of_ascii y)),
           (N.compare_spec (N_of_ascii y) (N_of_ascii z)),
           (N.compare_spec (N_of_ascii x) (N_of_ascii z));
    try done; try lia; eauto.
Qed.

Lemma string_le_not_Gt a b : string_le a b ↔ String.compare a b ≠ Gt.
Proof. unfold string_le, String.leb. by destruct (String.compare a b). Qed.

#[local] Instance string_le_total : Total string_le.
Proof. intros a b. apply String.leb_total. Qed.

#[local] Instance string_le_trans : Transitive string_le.
Proof. intros a b c. rewrite !string_le_not_Gt. apply string_compare_not_Gt_trans. Qed.

#[local] Instance string_le_antisymm : AntiSymm (=) string_le.
Proof. intros a b Hab Hba. by apply String.leb_antisym. Qed.

Lemma get_users_healthy d :
  get_users (healthy d) = (Ok (merge_sort string_le (users d)), healthy d).
Proof. reflexivity. Qed.

Lemma add_user_healthy d name :
  add_user name (healthy d)
  = if bool_decide (name ∈ users d)
    then (Ok false, healthy d)
    else (Ok true, healthy (set_users (users d ++ [name]) d)).
Proof.
  unfold add_user, sql_insert_user, try_except_IntegrityError. simpl.
  unfold mbind, M_bind. simpl. by destruct (bool_decide (name ∈ users d)).
Qed.

(** X1: Adding a new name succeeds and the list of members then has the name
    exactly once, next to the names it had; adding a name that is there is
    refused and changes nothing, so the second of two additions fails. *)
Theorem add_user_once (d : db) (name : string) :
  (name ∈ users d → add_user name (healthy d) = (Ok false, healthy d)) ∧
  (name ∉ users d →
     ∃ d' names,
       add_user name (healthy d) = (Ok true, healthy d') ∧
       mistakes d' = mistakes d ∧ comments d' = comments d ∧
       get_users (healthy d') = (Ok names, healthy d') ∧
       length (filter (λ u, u = name) names) = 1%nat ∧
       (∀ u, u ∈ names ↔ u = name ∨ u ∈ users d) ∧
       add_user name (healthy d') = (Ok false, healthy d')).
Proof.
  split; intros Hname; rewrite add_user_healthy.
  - by rewrite bool_decide_true.
  - rewrite bool_decide_false by done. do 2 eexists.
    split; [done|]. split; [done|]. split; [done|].
    rewrite get_users_healthy, add_user_healthy. simpl.
    split; [done|]. split; [|split].
    + rewrite (Permutation_length
                 (filter_Permutation _ _ _ (merge_sort_Permutation string_le _))).
      rewrite filter_app, (proj2 (filter_nil_iff _ _)); [|by intros u Hu ->].
      by rewrite filter_cons_True.
    + intros u. rewrite merge_sort_Permutation, elem_of_app, list_elem_of_singleton.
      tauto.
    + rewrite bool_decide_true; [done|]. apply elem_of_app. right. left.
Qed.

(** The theorem for "A", a member of the sample store, and for "D". *)
Lemma add_user_once_witness :
  add_user "A" (healthy sample_db) = (Ok false, healthy sample_db) ∧
  (∃ d', add_user "D" (healthy sample_db) = (Ok true, healthy d') ∧
         add_user "D" (healthy d') = (Ok false, healthy d')).
Proof.
  destruct (add_user_once sample_db "A") as (Hthere & _).
  destruct (add_user_once sample_db "D") as (_ & Hnew).
  split.
  - apply Hthere. unfold sample_db. simpl. rewrite !elem_of_cons. tauto.
  - destruct Hnew as (d' & names & Hadd & _ & _ & _ & _ & _ & Hagain).
    + unfold sample_db. simpl. rewrite !not_elem_of_cons.
      repeat split; (done || apply not_elem_of_nil).
    + by exists d'.
Defined.

(** X2: [get_users] lists exactly the names of the table in ascending order
    of their characters' codes, each name as often as the table has it:
    once, in a store with the invariant. *)
Theorem get_users_sorted (d : db) :
  ∃ names,
    get_users (healthy d) = (Ok names, healthy d) ∧
    names ≡ₚ users d ∧
    StronglySorted string_le names ∧
    (store_invariant d → NoDup names).
Proof.
  exists (merge_sort string_le (users d)).
  split; [done|]. split; [apply merge_sort_Permutation|].
  split; [apply StronglySorted_merge_sort; apply _|].
  intros [_ _ _ _ _ Husers]. by rewrite merge_sort_Permutation.
Qed.

(** The theorem on the sample store. *)
Lemma get_users_sorted_witness :
  ∃ names,
    get_users (healthy sample_db) = (Ok names, healthy sample_db) ∧ NoDup names.
Proof.
  destruct (get_users_sorted sample_db) as (names & Hrun & _ & _ & Hnodup).
  exists names. split; [done|]. apply Hnodup, sample_db_invariant.
Defined.

(** ** Incident ids and the round trip through the store *)

Lemma get_mistake_healthy d mistake_id :
  get_mistake mistake_id (healthy d)
  = (Ok (head (with_comments d <$> filter (λ m, m_id m = mistake_id) (mistakes d))),
     healthy d).
Proof. reflexivity. Qed.

Lemma filter_id_fresh (ms : list mistake) (m : mistake) :
  (∀ m', m' ∈ ms → m_id m' < m_id m) →
  filter (λ m', m_id m' = m_id m) (ms ++ [m]) = [m].
Proof.
  intros Hfresh. rewrite filter_app, (proj2 (filter_nil_iff _ _)).
  - by rewrite filter_cons_True.
  - intros m' Hm'. specialize (Hfresh m' Hm'). lia.
Qed.

(** In a store with the invariant the rows with a given id are at most
    one. *)
Lemma filter_id_unique (ms : list mistake) (m : mistake) :
  NoDup (m_id <$> ms) → m ∈ ms → filter (λ m', m_id m' = m_id m) ms = [m].
Proof.
  induction ms as [|x ms IH]; intros Hnodup Hm; [by apply elem_of_nil in Hm|].
  rewrite fmap_cons in Hnodup. apply NoDup_cons in Hnodup as [Hx Hnodup].
  apply elem_of_cons in Hm as [->|Hm].
  - rewrite filter_cons_True by done. f_equal. apply filter_nil_iff.
    intros m' Hm' Hid. apply Hx. rewrite <- Hid. by apply list_elem_of_fmap_2.
  - rewrite filter_cons_False; [by apply IH|].
    intros Hid. apply Hx. rewrite Hid. by apply list_elem_of_fmap_2.
Qed.

Lemma filter_id_closed (ms : list mistake) (m : mistake) :
  NoDup (m_id <$> ms) → m ∈ ms →
  filter (λ m', m_id m' = m_id m) (close_row (m_id m) <$> ms)
  = [close_row (m_id m) m].
Proof.
  intros Hunique Hm.
  pose proof (filter_id_unique (close_row (m_id m) <$> ms) (close_row (m_id m) m))
    as Hclosed.
  rewrite close_row_id in Hclosed. apply Hclosed.
  - rewrite <- list_fmap_compose.
    erewrite list_fmap_ext; [exact Hunique|]. intros i x _. apply close_row_id.
  - by apply list_elem_of_fmap_2.
Qed.

(** X3: Ids are never reused: in a store with the invariant [add_mistake]
    returns an id above every id of the store, and clearing the incidents
    does not reset the counter: adding, clearing and adding again gives
    two consecutive ids. *)
Theorem add_mistake_ids_never_reused
    (d : db) (now : Z) (user description : string) (priority : Z) :
  store_invariant d →
  ∃ id,
    (add_mistake now user description priority (healthy d)).1 = Ok (Some id) ∧
    0 < id ∧
    (∀ m, m ∈ mistakes d → m_id m < id) ∧
    ((clear_mistakes;; add_mistake now user description priority) (healthy d)).1
      = Ok (Some id) ∧
    ((add_mistake now user description priority;; clear_mistakes;;
      add_mistake now user description priority) (healthy d)).1
      = Ok (Some (id + 1)).
Proof.
  intros [Hids Hseq _ _ _ _]. exists (mistakes_seq d + 1).
  split; [done|]. split; [lia|]. split; [|done].
  intros m Hm. specialize (Hids m Hm). lia.
Qed.

(** The theorem on the sample store, whose counter stands at 7. *)
Lemma add_mistake_ids_never_reused_witness :
  ((clear_mistakes;; add_mistake 400 "A" "late" 1) (healthy sample_db)).1
  = Ok (Some 8).
Proof.
  destruct (add_mistake_ids_never_reused sample_db 400 "A" "late" 1 sample_db_invariant)
    as (id & Hadd & _ & _ & Hclear & _).
  rewrite Hclear, <- Hadd. reflexivity.
Defined.

(** X4: What [add_mistake] stores can be read back: after it returned an id,
    [mistake_exists] answers [True] for the id and [get_mistake] returns
    the row with the user, the description and the date given, the
    priority as normalised, [closed = 0], and the comments that refer to
    the id (none, unless a comment was written for the id in advance). *)
Theorem add_mistake_then_get_mistake
    (d : db) (now : Z) (user description : string) (priority : Z) :
  store_invariant d →
  ∃ id d' stored,
    add_mistake now user description priority (healthy d) = (Ok (Some id), healthy d') ∧
    mistake_exists id (healthy d') = (Ok true, healthy d') ∧
    get_mistake id (healthy d')
      = (Ok (Some (Mistake id user description now stored 0,
                   sql_group_concat ","
                     (c_text <$> filter (λ c, c_mistake_id c = id) (comments d)))),
         healthy d') ∧
    (stored = 1 ∨ stored = 2) ∧ (priority = 1 ∨ priority = 2 → stored = priority) ∧
    ((∀ c, c ∈ comments d → c_mistake_id c ≠ id) →
       get_mistake id (healthy d')
       = (Ok (Some (Mistake id user description now stored 0, None)), healthy d')).
Proof.
  intros [Hids Hseq _ _ _ _].
  set (stored := if bool_decide (priority ∉ [1; 2]) then 1 else priority).
  set (row := Mistake (mistakes_seq d + 1) user description now stored 0).
  assert (filter (λ m, m_id m = mistakes_seq d + 1) (mistakes d ++ [row]) = [row])
    as Hrow.
  { apply (filter_id_fresh (mistakes d) row). intros m Hm.
    specialize (Hids m Hm). simpl. lia. }
  assert (get_mistake (mistakes_seq d + 1)
            (healthy (sql_insert_mistake user description now stored d).2)
          = (Ok (Some (row,
                       sql_group_concat ","
                         (c_text <$> filter (λ c, c_mistake_id c = mistakes_seq d + 1)
                                            (comments d)))),
             healthy (sql_insert_mistake user description now stored d).2)) as Hget.
  { rewrite get_mistake_healthy. unfold sql_insert_mistake, with_comments, comment_texts.
    cbn [snd mistakes comments]. fold row. rewrite Hrow. reflexivity. }
  exists (mistakes_seq d + 1), (sql_insert_mistake user description now stored d).2, stored.
  split; [apply add_mistake_healthy|]. split; [|split; [exact Hget|split; [|split]]].
  - rewrite mistake_exists_healthy. do 2 f_equal. apply bool_decide_true.
    unfold sql_count_id, sql_insert_mistake. cbn [snd mistakes]. fold row.
    by rewrite Hrow.
  - unfold stored. case_bool_decide as Hin; [by left|].
    apply elem_of_cons in Hin as [->|Hin]; [by left|].
    apply list_elem_of_singleton in Hin as ->. by right.
  - unfold stored. intros Hp. rewrite bool_decide_false; [done|].
    intros Hnot. apply not_in_1_2 in Hnot. lia.
  - intros Hnone. rewrite Hget. do 4 f_equal.
    rewrite (proj2 (filter_nil_iff _ _)); [done|]. intros c Hc. by apply Hnone.
Qed.

(** The theorem on the sample store. *)
Lemma add_mistake_then_get_mistake_witness :
  ∃ d',
    add_mistake 400 "B" "late again" 2 (healthy sample_db) = (Ok (Some 8), healthy d') ∧
    get_mistake 8 (healthy d')
    = (Ok (Some (Mistake 8 "B" "late again" 400 2 0, None)), healthy d').
Proof.
  destruct (add_mistake_then_get_mistake sample_db 400 "B" "late again" 2
              sample_db_invariant)
    as (id & d' & stored & Hadd & _ & _ & _ & Hkept & Hget).
  rewrite (Hkept (or_intror eq_refl)) in Hget.
  rewrite add_mistake_healthy in Hadd. injection Hadd as <- <-.
  eexists. split; [reflexivity|]. apply Hget. unfold sample_db. each_row.
Defined.

(** ** Comments *)

Lemma add_comment_healthy d now mistake_id user_id text :
  add_comment now mistake_id user_id text (healthy d)
  = (Ok true, healthy (sql_insert_comment mistake_id user_id text now d).2).
Proof. reflexivity. Qed.

Lemma sql_group_concat_snoc sep texts text :
  sql_group_concat sep (texts ++ [text])
  = Some (match sql_group_concat sep texts with
          | Some joined => joined +:+ sep +:+ text
          | None => text
          end).
Proof.
  destruct texts as [|t ts]; [done|]. simpl. by rewrite foldl_app.
Qed.

Lemma group_handler_close_healthy d now mistake_id comment user_id :
  group_handler_close now mistake_id comment user_id (healthy d)
  = if bool_decide (sql_count_id mistake_id d > 0) then
      let closed := set_mistakes (close_row mistake_id <$> mistakes d) d in
      match comment with
      | Some text =>
          if bool_decide (text ≠ EmptyString)
          then (Ok (ReplyClosed (Some text)),
                healthy (sql_insert_comment mistake_id user_id text now closed).2)
          else (Ok (ReplyClosed None), healthy closed)
      | None => (Ok (ReplyClosed None), healthy closed)
      end
    else (Ok ReplyNotFound, healthy d).
Proof.
  unfold group_handler_close. unfold mbind at 1, M_bind at 1.
  rewrite mistake_exists_healthy.
  destruct (bool_decide (sql_count_id mistake_id d > 0)); [|done]. simpl.
  unfold mbind at 1, M_bind at 1. rewrite close_mistake_healthy.
  destruct comment as [text|]; [|done].
  destruct (bool_decide (text ≠ EmptyString)); [|done].
  unfold mbind, M_bind. by rewrite add_comment_healthy.
Qed.

(** X5: The close command with a comment, on an incident of a store with the
    invariant: the reply is "closed" with the comment, the members are
    untouched, and [get_mistake] then shows the incident with
    [closed = 1], its other columns as before, and the comment appended
    to its comments. *)
Theorem close_command_stores_comment
    (d : db) (m : mistake) (now user_id : Z) (text : string) :
  store_invariant d → m ∈ mistakes d → text ≠ EmptyString →
  ∃ d',
    group_handler_close now (m_id m) (Some text) user_id (healthy d)
    = (Ok (ReplyClosed (Some text)), healthy d') ∧
    users d' = users d ∧
    get_mistake (m_id m) (healthy d')
    = (Ok (Some (Mistake (m_id m) (m_user m) (m_description m) (m_date m)
                         (m_priority m) 1,
                 Some (match sql_group_concat "," (comment_texts d m) with
                       | Some joined => joined +:+ "," +:+ text
                       | None => text
                       end))),
       healthy d').
Proof.
  intros [_ _ Hunique _ _ _] Hm Htext.
  eexists. rewrite group_handler_close_healthy.
  rewrite bool_decide_true, bool_decide_true; [|done|].
  - split; [reflexivity|]. split; [done|].
    rewrite get_mistake_healthy.
    unfold sql_insert_comment, set_mistakes, with_comments, comment_texts.
    cbn [snd mistakes comments]. rewrite filter_id_closed by done.
    cbn [fmap list_fmap head]. rewrite close_row_id, filter_app, fmap_app.
    rewrite filter_cons_True by done. cbn [filter list_filter fmap list_fmap c_text].
    rewrite sql_group_concat_snoc.
    unfold close_row. by rewrite bool_decide_true.
  - unfold sql_count_id. rewrite sql_count_pos_iff. intros Hnil.
    by eapply (filter_nil_not_elem_of _ _ m Hnil).
Qed.

(** The scenario of closing incident 1 of the sample store with the
    comment "fixed". *)
Lemma close_command_stores_comment_witness :
  ∃ d',
    group_handler_close 400 1 (Some "fixed"%string) 42 (healthy sample_db)
    = (Ok (ReplyClosed (Some "fixed"%string)), healthy d') ∧
    get_mistake 1 (healthy d')
    = (Ok (Some (Mistake 1 "A" "late delivery" 100 2 1, Some "fixed"%string)),
       healthy d').
Proof.
  destruct (close_command_stores_comment sample_db
              (Mistake 1 "A" "late delivery" 100 2 0) 400 42 "fixed"
              sample_db_invariant)
    as (d' & Hrun & _ & Hget); [left|done|].
  exists d'. split; [exact Hrun|exact Hget].
Defined.

(** X6: The reply of the close command names the comment whether or not the
    comment was stored: when the INSERT of the comment fails, the
    incident is closed, the reply is the same, and no comment is there. *)
Theorem close_command_ignores_comment_failure
    (d : db) (m : mistake) (now user_id : Z) (text : string) (e : sqlite_error)
    (fs : list (option sqlite_error)) :
  m ∈ mistakes d → text ≠ EmptyString →
  let run :=
    group_handler_close now (m_id m) (Some text) user_id
      (World d (None :: None :: None :: Some e :: fs)) in
  run.1 = Ok (ReplyClosed (Some text)) ∧
  comments (w_db run.2) = comments d ∧
  mistakes (w_db run.2) = close_row (m_id m) <$> mistakes d.
Proof.
  intros Hm Htext.
  assert (bool_decide (sql_count_id (m_id m) d > 0) = true) as Hfound.
  { apply bool_decide_true. unfold sql_count_id. rewrite sql_count_pos_iff.
    intros Hnil. by eapply (filter_nil_not_elem_of _ _ m Hnil). }
  unfold group_handler_close, mistake_exists, close_mistake, add_comment,
    try_except_sqlite3_Error.
  simpl. unfold mbind, M_bind. simpl. rewrite Hfound. simpl.
  by rewrite (bool_decide_true _ Htext).
Qed.

(** The theorem on incident 1 of the sample store with a database that
    locks at the fourth call. *)
Lemma close_command_ignores_comment_failure_witness :
  (group_handler_close 400 1 (Some "fixed"%string) 42
     (World sample_db [None; None; None; Some OperationalError])).1
  = Ok (ReplyClosed (Some "fixed"%string)) ∧
  comments
    (w_db (group_handler_close 400 1 (Some "fixed"%string) 42
             (World sample_db [None; None; None; Some OperationalError])).2)
  = comments sample_db.
Proof.
  destruct (close_command_ignores_comment_failure sample_db
              (Mistake 1 "A" "late delivery" 100 2 0) 400 42 "fixed"
              OperationalError [])
    as (Hreply & Hcomments & _); [left|done|].
  by split.
Defined.

(** X7: [add_comment] does not look the incident up: for an id that no
    incident has it returns [True] and stores the comment.  When the id
    is the one the next incident gets, [get_mistake] shows that comment on
    the new incident. *)
Theorem add_comment_without_incident
    (d : db) (now user_id : Z) (text : string) (user description : string)
    (priority : Z) :
  store_invariant d →
  ∃ id,
    (add_mistake now user description priority (healthy d)).1 = Ok (Some id) ∧
    mistake_exists id (healthy d) = (Ok false, healthy d) ∧
    (add_comment now id user_id text (healthy d)).1 = Ok true ∧
    comments (w_db (add_comment now id user_id text (healthy d)).2)
      = comments d ++ [Comment (comments_seq d + 1) id user_id text now] ∧
    ((∀ c, c ∈ comments d → c_mistake_id c ≠ id) →
       ∃ row,
         ((add_comment now id user_id text;;
           add_mistake now user description priority;;
           get_mistake id) (healthy d)).1
         = Ok (Some (row, Some text)) ∧
         m_id row = id ∧ m_user row = user ∧ m_description row = description).
Proof.
  intros [Hids Hseq _ _ _ _]. exists (mistakes_seq d + 1).
  split; [done|]. split; [|split; [done|split; [done|]]].
  - rewrite mistake_exists_healthy. do 2 f_equal. apply bool_decide_false.
    unfold sql_count_id. rewrite sql_count_pos_iff. intros Hne. apply Hne.
    apply filter_nil_iff. intros m Hm. specialize (Hids m Hm). lia.
  - intros Hnone.
    set (stored := if bool_decide (priority ∉ [1; 2]) then 1 else priority).
    set (row := Mistake (mistakes_seq d + 1) user description now stored 0).
    exists row. split; [|done].
    assert (filter (λ m, m_id m = mistakes_seq d + 1) (mistakes d ++ [row]) = [row])
      as Hrow.
    { apply (filter_id_fresh (mistakes d) row). intros m Hm.
      specialize (Hids m Hm). simpl. lia. }
    unfold mbind, M_bind. rewrite add_comment_healthy, add_mistake_healthy.
    rewrite get_mistake_healthy.
    unfold sql_insert_mistake, sql_insert_comment, with_comments, comment_texts.
    cbn [snd fst mistakes comments mistakes_seq]. fold stored. fold row.
    rewrite Hrow. cbn [fmap list_fmap head m_id row].
    rewrite filter_app, (proj2 (filter_nil_iff _ _)); [|intros c Hc; by apply Hnone].
    by rewrite filter_cons_True.
Qed.

(** The theorem on the sample store: a comment for the id 8 that does not
    exist yet. *)
Lemma add_comment_without_incident_witness :
  mistake_exists 8 (healthy sample_db) = (Ok false, healthy sample_db) ∧
  (add_comment 400 8 42 "early" (healthy sample_db)).1 = Ok true.
Proof.
  destruct (add_comment_without_incident sample_db 400 42 "early" "A" "late" 1
              sample_db_invariant)
    as (id & Hadd & Hmissing & Hcomment & _).
  assert (id = 8) as ->.
  { rewrite add_mistake_healthy in Hadd. vm_compute in Hadd. congruence. }
  by split.
Defined.

(** ** Counting *)

Lemma foldr_case_when {A} (P : A → Prop) `{!∀ x, Decision (P x)} (rows : list A) :
  foldr Z.add 0 ((λ x, case_when (P x)) <$> rows) = sql_count (filter P rows).
Proof.
  unfold sql_count, case_when. induction rows as [|x rows IH]; [done|].
  csimpl. rewrite IH, filter_cons. destruct (decide (P x)); simpl; lia.
Qed.

(** [SUM(CASE WHEN c THEN 1 ELSE 0 END) or 0] counts the rows with [c]. *)
Lemma sum_case_when {A} (P : A → Prop) `{!∀ x, Decision (P x)} (rows : list A) :
  or_0 (sql_sum ((λ x, case_when (P x)) <$> rows)) = sql_count (filter P rows).
Proof.
  destruct rows as [|x rows]; [done|].
  rewrite <- foldr_case_when. reflexivity.
Qed.

Lemma count_split {A} (P Q : A → Prop) `{!∀ x, Decision (P x)} `{!∀ x, Decision (Q x)}
    (rows : list A) :
  (∀ x, x ∈ rows → P x ∨ Q x) → (∀ x, P x → Q x → False) →
  sql_count (filter P rows) + sql_count (filter Q rows) = sql_count rows.
Proof.
  unfold sql_count. intros Hcover Hdisjoint.
  induction rows as [|x rows IH]; [done|].
  rewrite !filter_cons.
  assert (∀ y, y ∈ rows → P y ∨ Q y) as Hrows by (intros y Hy; apply Hcover; by right).
  specialize (IH Hrows).
  destruct (Hcover x) as [Hx|Hx]; [left| |]; destruct (decide (P x)), (decide (Q x));
    simpl; try lia; exfalso; eauto.
Qed.

Lemma count_none {A} (P : A → Prop) `{!∀ x, Decision (P x)} (rows : list A) :
  (∀ x, x ∈ rows → ¬ P x) → sql_count (filter P rows) = 0.
Proof. intros Hnone. by rewrite (proj2 (filter_nil_iff P rows)). Qed.

Lemma get_status_stats_healthy d :
  get_status_stats (healthy d)
  = (Ok (Counts (sql_count (mistakes d))
                (sql_count (filter (λ m, m_closed m = 0) (mistakes d)))
                (sql_count (filter (λ m, m_closed m = 1) (mistakes d)))),
     healthy d).
Proof.
  unfold get_status_stats, select, sql_status_row. simpl.
  unfold mbind, M_bind, ret, mret, M_ret. simpl.
  by rewrite (sum_case_when (λ m, m_closed m = 0)),
             (sum_case_when (λ m, m_closed m = 1)).
Qed.

(** X8: The status statistics count the incidents, those with [closed = 0]
    and those with [closed = 1]; on a store without incidents all three
    are the number 0; in a store with the invariant open and closed add
    up to the total. *)
Theorem status_stats_add_up (d : db) :
  ∃ stats,
    get_status_stats (healthy d) = (Ok stats, healthy d) ∧
    total stats = sql_count (mistakes d) ∧
    active stats = sql_count (filter (λ m, m_closed m = 0) (mistakes d)) ∧
    closed stats = sql_count (filter (λ m, m_closed m = 1) (mistakes d)) ∧
    (mistakes d = [] → stats = Counts 0 0 0) ∧
    (store_invariant d → active stats + closed stats = total stats).
Proof.
  eexists. split; [apply get_status_stats_healthy|]. simpl.
  split; [done|]. split; [done|]. split; [done|]. split.
  - by intros ->.
  - intros [_ _ _ _ Hclosed _]. apply count_split; [done|]. intros m. lia.
Qed.

(** The theorem on the sample store: two open incidents, one closed. *)
Lemma status_stats_add_up_witness :
  get_status_stats (healthy sample_db) = (Ok (Counts 3 2 1), healthy sample_db).
Proof.
  destruct (status_stats_add_up sample_db)
    as (stats & Hrun & Htotal & Hactive & Hclosed & _ & Hsum).
  specialize (Hsum sample_db_invariant).
  rewrite Hrun. destruct stats as [t a c]. simpl in *.
  vm_compute in Htotal, Hactive, Hclosed. by subst.
Defined.

Lemma priority_counts_fold (cnt : Z → Z) (keys : list Z) (a b : Z) :
  NoDup keys →
  foldl set_priority_count (PriorityCounts a b)
        ((λ p, (priority_label p, cnt p)) <$> keys)
  = PriorityCounts (if decide (1 ∈ keys) then cnt 1 else a)
                   (if decide (2 ∈ keys) then cnt 2 else b).
Proof.
  intros Hkeys. revert a b.
  induction Hkeys as [|p keys Hp _ IH]; intros a b; [done|].
  rewrite fmap_cons. cbn [foldl].
  assert (set_priority_count (PriorityCounts a b) (priority_label p, cnt p)
          = PriorityCounts (if decide (p = 1) then cnt p else a)
                           (if decide (p = 2) then cnt p else b)) as ->.
  { unfold set_priority_count, priority_label. simpl.
    repeat case_bool_decide; repeat case_decide; simpl; try done; lia. }
  rewrite IH.
  f_equal; repeat case_decide; subst; try done;
    exfalso; rewrite ?elem_of_cons, ?not_elem_of_cons in *; intuition lia.
Qed.

Lemma get_priority_stats_healthy d :
  get_priority_stats (healthy d)
  = (Ok (PriorityCounts (sql_count (filter (λ m, m_priority m = 1) (mistakes d)))
                        (sql_count (filter (λ m, m_priority m = 2) (mistakes d)))),
     healthy d).
Proof.
  unfold get_priority_stats, select. simpl.
  unfold mbind, M_bind, ret, mret, M_ret. simpl.
  do 2 f_equal. unfold sql_count_by_priority.
  rewrite (priority_counts_fold
             (λ p, sql_count (filter (λ m, m_priority m = p) (mistakes d)))).
  - assert (∀ p, p ∉ merge_sort Z.le (remove_dups (m_priority <$> mistakes d)) →
                 sql_count (filter (λ m, m_priority m = p) (mistakes d)) = 0) as Hzero.
    { intros p Hp. apply count_none. intros m Hm Hpm. apply Hp.
      rewrite merge_sort_Permutation. apply elem_of_remove_dups.
      rewrite <- Hpm. by apply list_elem_of_fmap_2. }
    f_equal; case_decide; first [done | symmetry; by apply Hzero].
  - rewrite merge_sort_Permutation. apply NoDup_remove_dups.
Qed.

Lemma column_or_0_report rows :
  column_or_0 (sql_report_row rows) 0 = sql_count rows ∧
  column_or_0 (sql_report_row rows) 1 = sql_count (filter (λ m, m_closed m = 0) rows) ∧
  column_or_0 (sql_report_row rows) 2 = sql_count (filter (λ m, m_closed m = 1) rows) ∧
  column_or_0 (sql_report_row rows) 3 = sql_count (filter (λ m, m_priority m = 1) rows) ∧
  column_or_0 (sql_report_row rows) 4 = sql_count (filter (λ m, m_priority m = 2) rows) ∧
  column_or_0 (sql_report_row rows) 5 = sql_count (filter (λ m, m_priority m = 3) rows).
Proof.
  unfold column_or_0, sql_report_row. simpl.
  split; [done|].
  split; [apply (sum_case_when (λ m, m_closed m = 0))|].
  split; [apply (sum_case_when (λ m, m_closed m = 1))|].
  split; [apply (sum_case_when (λ m, m_priority m = 1))|].
  split; [apply (sum_case_when (λ m, m_priority m = 2))|].
  apply (sum_case_when (λ m, m_priority m = 3)).
Qed.

Lemma get_all_stats_healthy d :
  get_all_stats (healthy d)
  = (Ok (make_report (sql_report_row (mistakes d)) (sql_top_users (mistakes d))),
     healthy d).
Proof. reflexivity. Qed.

(** X9: The priority statistics count the incidents of priority 1 and those
    of priority 2, with the number 0 for a priority no incident has.  In a
    store with the invariant the two add up to the number of incidents,
    they are the two priority counts of the all-time report, and the
    report's count for priority 3 is 0. *)
Theorem priority_stats_add_up (d : db) :
  ∃ stats all,
    get_priority_stats (healthy d) = (Ok stats, healthy d) ∧
    get_all_stats (healthy d) = (Ok all, healthy d) ∧
    ordinary stats = sql_count (filter (λ m, m_priority m = 1) (mistakes d)) ∧
    critical stats = sql_count (filter (λ m, m_priority m = 2) (mistakes d)) ∧
    r_priority_1 all = ordinary stats ∧ r_priority_2 all = critical stats ∧
    (store_invariant d →
       ordinary stats + critical stats = sql_count (mistakes d) ∧
       r_priority_3 all = 0).
Proof.
  do 2 eexists. split; [apply get_priority_stats_healthy|].
  split; [apply get_all_stats_healthy|]. cbn [ordinary critical r_priority_1 r_priority_2
                               r_priority_3 make_report].
  destruct (column_or_0_report (mistakes d)) as (_ & _ & _ & H1 & H2 & H3).
  split; [done|]. split; [done|]. split; [exact H1|]. split; [exact H2|].
  intros [_ _ _ Hpriority _ _]. split.
  - apply count_split; [done|]. intros m. lia.
  - rewrite H3. apply count_none. intros m Hm. destruct (Hpriority m Hm); lia.
Qed.

(** The theorem on the sample store: two ordinary incidents, one critical. *)
Lemma priority_stats_add_up_witness :
  get_priority_stats (healthy sample_db) = (Ok (PriorityCounts 2 1), healthy sample_db).
Proof.
  destruct (priority_stats_add_up sample_db)
    as (stats & all & Hrun & _ & Hordinary & Hcritical & _ & _ & Hsum).
  specialize (Hsum sample_db_invariant).
  rewrite Hrun. destruct stats as [o c]. simpl in *.
  vm_compute in Hordinary, Hcritical. by subst.
Defined.

Lemma get_user_stats_healthy d user :
  get_user_stats user (healthy d)
  = (let rows := filter (λ m, m_user m = user) (mistakes d) in
     Ok (UserCounts (sql_count rows)
                    (sql_count (filter (λ m, m_closed m = 0) rows))
                    (sql_count (filter (λ m, m_closed m = 1) rows))
                    (sql_count (filter (λ m, m_priority m = 1) rows))
                    (sql_count (filter (λ m, m_priority m = 2) rows))
                    (sql_count (filter (λ m, m_priority m = 3) rows))),
     healthy d).
Proof.
  unfold get_user_stats, select. simpl.
  unfold mbind, M_bind, ret, mret, M_ret. simpl.
  destruct (column_or_0_report (filter (λ m, m_user m = user) (mistakes d)))
    as (H0 & H1 & H2 & H3 & H4 & H5).
  by rewrite H0, H1, H2, H3, H4, H5.
Qed.

(** X10: The statistics of one user: for a name that owns no incident, member
    or not, every count is the number 0; in a store with the invariant the
    total is open plus closed and also priority 1 plus priority 2, and the
    count for priority 3 is 0. *)
Theorem user_stats_add_up (d : db) (user : string) :
  ∃ stats,
    get_user_stats user (healthy d) = (Ok stats, healthy d) ∧
    u_total stats = sql_count (filter (λ m, m_user m = user) (mistakes d)) ∧
    ((∀ m, m ∈ mistakes d → m_user m ≠ user) → stats = UserCounts 0 0 0 0 0 0) ∧
    (store_invariant d →
       u_active stats + u_closed stats = u_total stats ∧
       u_priority_1 stats + u_priority_2 stats = u_total stats ∧
       u_priority_3 stats = 0).
Proof.
  eexists. split; [apply get_user_stats_healthy|]. cbv zeta.
  cbn [u_total u_active u_closed u_priority_1 u_priority_2 u_priority_3].
  split; [done|]. split.
  - intros Hnone. rewrite (proj2 (filter_nil_iff _ (mistakes d))); [done|].
    intros m Hm. by apply Hnone.
  - intros [_ _ _ Hpriority Hclosed _].
    assert (∀ m, m ∈ filter (λ m, m_user m = user) (mistakes d) → m ∈ mistakes d)
      as Hin by (intros m Hm; by apply list_elem_of_filter in Hm as [_ ?]).
    split; [|split].
    + apply count_split; [auto|]. intros m. lia.
    + apply count_split; [auto|]. intros m. lia.
    + apply count_none. intros m Hm. destruct (Hpriority m (Hin m Hm)); lia.
Qed.

(** The theorem for "A" of the sample store and for a name it does not
    have. *)
Lemma user_stats_add_up_witness :
  get_user_stats "A" (healthy sample_db)
    = (Ok (UserCounts 2 1 1 1 1 0), healthy sample_db) ∧
  get_user_stats "Z" (healthy sample_db)
    = (Ok (UserCounts 0 0 0 0 0 0), healthy sample_db).
Proof.
  destruct (user_stats_add_up sample_db "Z") as (stats & Hrun & _ & Hnone & _).
  split; [reflexivity|].
  rewrite Hrun, Hnone; [done|]. unfold sample_db. each_row.
Defined.

(** ** Per-user statistics, exactly *)

Lemma add_counted_fold (rows : list mistake) (keys : list string)
    (stats : gmap string counts) (k : string) :
  NoDup keys →
  foldl add_counted_user stats
    ((λ u, let g := filter (λ m, m_user m = u) rows in
           (u, sql_count g,
            sql_sum ((λ m, case_when (m_closed m = 0)) <$> g),
            sql_sum ((λ m, case_when (m_closed m = 1)) <$> g))) <$> keys) !! k
  = if decide (k ∈ keys ∧ k ≠ EmptyString)
    then Some (owner_counts rows k)
    else stats !! k.
Proof.
  intros Hkeys. revert stats.
  induction Hkeys as [|u keys Hu _ IH]; intros stats.
  - rewrite decide_False; [done|]. intros [[]%elem_of_nil _].
  - rewrite fmap_cons. cbn [foldl]. rewrite IH.
    unfold add_counted_user at 1, truthy. cbv zeta. cbn [fst snd].
    destruct (decide (k ∈ keys ∧ k ≠ EmptyString)) as [[Hk Hne]|Hno].
    + rewrite decide_True; [done|]. split; [by right|done].
    + destruct (decide (k = u)) as [->|Hku].
      * destruct (decide (u = EmptyString)) as [->|Hempty].
        -- rewrite bool_decide_false by (intros H; by apply H).
           rewrite decide_False; [done|]. by intros [_ ?].
        -- rewrite bool_decide_true by done. rewrite lookup_insert_eq.
           rewrite decide_True by (split; [left|done]).
           unfold owner_counts. cbv zeta.
           by rewrite (sum_case_when (λ m, m_closed m = 0)),
                      (sum_case_when (λ m, m_closed m = 1)).
      * rewrite decide_False.
        -- destruct (bool_decide _); [by rewrite lookup_insert_ne|done].
        -- rewrite elem_of_cons. intros [[?|?] ?]; [done|]. by apply Hno.
Qed.

Lemma add_missing_other (stats : gmap string counts) us k :
  k ∉ us → foldl add_missing_user stats us !! k = stats !! k.
Proof.
  revert stats. induction us as [|u us IH]; intros stats Hk; [done|].
  apply not_elem_of_cons in Hk as [Hne Hk]. simpl. rewrite IH by done.
  unfold add_missing_user. case_bool_decide; [|done]. by rewrite lookup_insert_ne.
Qed.

Lemma elem_of_owners (rows : list mistake) (u : string) :
  u ∈ owners rows ↔ ∃ m, m ∈ rows ∧ m_user m = u.
Proof.
  unfold owners. rewrite elem_of_remove_dups, list_elem_of_fmap.
  split; intros (m & ? & ?); exists m; by split.
Qed.

(** What [get_mistake_stats] holds for a name. *)
Lemma mistake_stats_lookup (d : db) (name : string) :
  ∃ stats,
    get_mistake_stats (healthy d) = (Ok stats, healthy d) ∧
    stats !! name
    = if decide (name ∈ owners (mistakes d) ∧ name ≠ EmptyString)
      then Some (owner_counts (mistakes d) name)
      else if decide (name ∈ users d) then Some (Counts 0 0 0) else None.
Proof.
  eexists. split; [apply get_mistake_stats_healthy|].
  assert (name ∈ merge_sort string_le (remove_dups (m_user <$> mistakes d)) ↔
          name ∈ owners (mistakes d)) as Hkey
    by (by rewrite merge_sort_Permutation).
  pose proof (add_counted_fold (mistakes d)
                (merge_sort string_le (remove_dups (m_user <$> mistakes d)))
                ∅ name) as Hfirst.
  unfold sql_stats_by_user.
  rewrite lookup_empty in Hfirst.
  destruct (decide (name ∈ owners (mistakes d) ∧ name ≠ EmptyString))
    as [[Hin Hne]|Hno].
  - rewrite decide_True in Hfirst by (split; [by apply Hkey|done]).
    apply add_missing_keeps, Hfirst.
    rewrite merge_sort_Permutation. apply NoDup_remove_dups.
  - rewrite decide_False in Hfirst
      by (intros [? ?]; apply Hno; split; [by apply Hkey|done]).
    destruct (decide (name ∈ users d)) as [Hmember|Hmember].
    + apply add_missing_zero; [done|]. apply Hfirst.
      rewrite merge_sort_Permutation. apply NoDup_remove_dups.
    + rewrite add_missing_other by done. apply Hfirst.
      rewrite merge_sort_Permutation. apply NoDup_remove_dups.
Qed.

(** X11: [get_mistake_stats] by name.  A name that is not empty and owns
    incidents has their counts, whether it is a member or not; a member
    without incidents has the number 0 three times, and so has the member
    with the empty name even when it owns incidents (the loop skips the
    empty name); any other name is not a key. *)
Theorem mistake_stats_by_name (d : db) (name : string) :
  ∃ stats,
    get_mistake_stats (healthy d) = (Ok stats, healthy d) ∧
    (name ≠ EmptyString → (∃ m, m ∈ mistakes d ∧ m_user m = name) →
       stats !! name = Some (owner_counts (mistakes d) name)) ∧
    (name ∈ users d → (∀ m, m ∈ mistakes d → m_user m ≠ name) →
       stats !! name = Some (Counts 0 0 0)) ∧
    (name ∈ users d → name = EmptyString → stats !! name = Some (Counts 0 0 0)) ∧
    (name ∉ users d → (∀ m, m ∈ mistakes d → m_user m ≠ name) →
       stats !! name = None).
Proof.
  destruct (mistake_stats_lookup d name) as (stats & Hrun & Hlookup).
  exists stats. split; [done|]. rewrite Hlookup.
  split; [|split; [|split]].
  - intros Hne Hown. rewrite decide_True; [done|]. split; [|done].
    by apply elem_of_owners.
  - intros Hmember Hnone. rewrite decide_False, decide_True; [done..|].
    intros [(m & Hm & Hu)%elem_of_owners _]. by apply (Hnone m).
  - intros Hmember ->. rewrite decide_False, decide_True; [done..|].
    by intros [_ ?].
  - intros Hmember Hnone. rewrite decide_False, decide_False; [done..|].
    intros [(m & Hm & Hu)%elem_of_owners _]. by apply (Hnone m).
Qed.

(** The theorem on the sample store for "A", who owns two incidents, one
    of them closed, and for "Z", who is unknown. *)
Lemma mistake_stats_by_name_witness :
  ∃ stats,
    get_mistake_stats (healthy sample_db) = (Ok stats, healthy sample_db) ∧
    stats !! "A"%string = Some (Counts 2 1 1) ∧
    stats !! "Z"%string = None.
Proof.
  destruct (mistake_stats_by_name sample_db "A") as (stats & Hrun & Howner & _).
  destruct (mistake_stats_by_name sample_db "Z") as (stats' & Hrun' & _ & _ & _ & Hnone).
  assert (stats' = stats) as -> by congruence.
  exists stats. split; [done|]. split.
  - rewrite Howner; [done|done|]. eexists. split; [left|done].
  - apply Hnone.
    + unfold sample_db. simpl. rewrite !not_elem_of_cons.
      repeat split; (done || apply not_elem_of_nil).
    + unfold sample_db. each_row.
Defined.

Lemma users_stats_names (d : db) row :
  row ∈ sql_users_stats d → row.1.1.1 ∈ users d.
Proof.
  unfold sql_users_stats. intros (u & -> & Hu)%list_elem_of_fmap. simpl.
  rewrite merge_sort_Permutation in Hu.
  apply elem_of_remove_dups, list_elem_of_fmap in Hu as (r & -> & Hr).
  apply left_join_elem in Hr as (u & Hu & Hr).
  destruct (joined_rows_spec (mistakes d) u) as (_ & Hfst & _).
  by rewrite (Hfst r Hr).
Qed.

(** X12: Deleting a member keeps the member's incidents.  After a member with
    a non-empty name whose incidents are all closed is deleted,
    [get_users] and [get_users_stats] no longer have the name, but
    [get_mistake_stats] still reports the name with the counts of its
    incidents. *)
Theorem deleted_member_keeps_incidents (d : db) (name : string) :
  name ∈ users d → name ≠ EmptyString →
  (∃ m, m ∈ mistakes d ∧ m_user m = name) →
  (∀ m, m ∈ mistakes d → m_user m = name → m_closed m ≠ 0) →
  ∃ d' names rows stats,
    delete_user name (healthy d) = (Ok true, healthy d') ∧
    mistakes d' = mistakes d ∧
    get_users (healthy d') = (Ok names, healthy d') ∧ (name ∉ names) ∧
    get_users_stats (healthy d') = (Ok rows, healthy d') ∧
    (∀ row, row ∈ rows → row.1.1.1 ≠ name) ∧
    get_mistake_stats (healthy d') = (Ok stats, healthy d') ∧
    stats !! name = Some (owner_counts (mistakes d) name) ∧
    0 < total (owner_counts (mistakes d) name).
Proof.
  intros Hmember Hne Hown Hclosed.
  set (d' := set_users (filter (λ u, u ≠ name) (users d)) d).
  assert (name ∉ users d') as Hgone.
  { unfold d'. simpl. rewrite list_elem_of_filter. tauto. }
  destruct (mistake_stats_lookup d' name) as (stats & Hstats & Hlookup).
  exists d', (merge_sort string_le (users d')), (sql_users_stats d'), stats.
  split; [|split; [done|split; [done|split; [|split; [done|split; [|split; [done|split]]]]]]].
  - rewrite delete_user_healthy, bool_decide_false, bool_decide_true; [done| |].
    + by rewrite count_name_pos.
    + rewrite count_active_pos. intros (m & Hm & Hu & Hc). by apply (Hclosed m).
  - by rewrite merge_sort_Permutation.
  - intros row Hrow%users_stats_names Hname. by rewrite Hname in Hrow.
  - rewrite Hlookup, decide_True; [done|]. split; [|done]. by apply elem_of_owners.
  - unfold owner_counts. simpl. destruct Hown as (m & Hm & Hu).
    apply Z.gt_lt, sql_count_pos_iff. intros Hnil.
    by eapply (filter_nil_not_elem_of _ _ m Hnil).
Qed.

(** A store where "A" owns one incident, which is closed. *)
Lemma deleted_member_keeps_incidents_witness :
  ∃ d' stats,
    delete_user "A" (healthy (Db ["A"]%string [Mistake 1 "A" "late" 100 1 1] [] 1 0))
    = (Ok true, healthy d') ∧
    get_mistake_stats (healthy d') = (Ok stats, healthy d') ∧
    stats !! "A"%string = Some (Counts 1 0 1).
Proof.
  destruct (deleted_member_keeps_incidents
              (Db ["A"]%string [Mistake 1 "A" "late" 100 1 1] [] 1 0) "A")
    as (d' & names & rows & stats & Hdelete & _ & _ & _ & _ & _ & Hstats & Hlookup & _).
  - left.
  - done.
  - eexists. split; [left|done].
  - each_row.
  - by exists d', stats.
Defined.

(** ** [get_users_stats], exactly *)

Lemma filter_joined (us : list string) (ms : list mistake) (u : string) :
  NoDup us → u ∈ us →
  filter (λ r, r.1 = u) (left_join_mistakes us ms) = joined_rows ms u.
Proof.
  unfold left_join_mistakes.
  assert (∀ x, x ≠ u → filter (λ r : string * option mistake, r.1 = u)
                              (joined_rows ms x) = []) as Hother.
  { intros x Hx. apply filter_nil_iff. intros r Hr.
    destruct (joined_rows_spec ms x) as (_ & Hfst & _). rewrite (Hfst r Hr). done. }
  assert (∀ l, u ∉ l → filter (λ r : string * option mistake, r.1 = u)
                              (l ≫= joined_rows ms) = []) as Hrest.
  { induction l as [|x l IH]; intros Hu; [done|].
    apply not_elem_of_cons in Hu as [Hne Hu]. rewrite bind_cons, filter_app.
    by rewrite Hother, IH. }
  induction 1 as [|x us Hx Hnodup IH]; intros Hu; [by apply elem_of_nil in Hu|].
  rewrite bind_cons, filter_app.
  destruct (decide (x = u)) as [->|Hne].
  - rewrite Hrest by done. rewrite app_nil_r. apply filter_all.
    destruct (joined_rows_spec ms u) as (_ & Hfst & _). apply Hfst.
  - apply elem_of_cons in Hu as [?|Hu]; [done|].
    by rewrite Hother, IH.
Qed.

Lemma joined_rows_counts (ms : list mistake) (u : string) :
  sql_sum (case_closed 0 <$> joined_rows ms u) = Some (active (owner_counts ms u)) ∧
  sql_sum (case_closed 1 <$> joined_rows ms u) = Some (closed (owner_counts ms u)) ∧
  sql_count_id_not_null (joined_rows ms u) = total (owner_counts ms u).
Proof.
  unfold joined_rows, owner_counts. cbv zeta. cbn [active closed total].
  rewrite (list_filter_iff (λ m, m_user m = u) (λ m, u = m_user m))
    by (intros m; split; congruence).
  destruct (filter (λ m, u = m_user m) ms) as [|m matched]; [done|].
  assert (∀ v, sql_sum (case_closed v <$> ((λ m0, (u, Some m0)) <$> m :: matched))
               = Some (sql_count (filter (λ m0, m_closed m0 = v) (m :: matched))))
    as Hsum.
  { intros v. rewrite <- list_fmap_compose, <- foldr_case_when. done. }
  split; [apply Hsum|]. split; [apply Hsum|].
  unfold sql_count_id_not_null. rewrite filter_all.
  - unfold sql_count. by rewrite length_fmap.
  - intros r (m0 & -> & _)%list_elem_of_fmap. by eexists.
Qed.

(** X13: With unique names [get_users_stats] has one row per member, in
    ascending order of the names, and the row holds the numbers of the
    member's open, closed and all incidents; incidents whose owner is not
    a member appear in no row. *)
Theorem users_stats_one_row_per_member (d : db) :
  NoDup (users d) →
  ∃ rows,
    get_users_stats (healthy d) = (Ok rows, healthy d) ∧
    (λ row, row.1.1.1) <$> rows ≡ₚ users d ∧
    StronglySorted string_le ((λ row, row.1.1.1) <$> rows) ∧
    (∀ row, row ∈ rows →
       row = (row.1.1.1,
              Some (active (owner_counts (mistakes d) row.1.1.1)),
              Some (closed (owner_counts (mistakes d) row.1.1.1)),
              total (owner_counts (mistakes d) row.1.1.1))).
Proof.
  intros Hnodup. exists (sql_users_stats d). split; [done|].
  unfold sql_users_stats.
  set (joined := left_join_mistakes (users d) (mistakes d)).
  set (keys := merge_sort string_le (remove_dups joined.*1)).
  assert (∀ u, u ∈ joined.*1 ↔ u ∈ users d) as Hnames.
  { intros u. rewrite list_elem_of_fmap. split.
    - intros (r & -> & (u' & Hu & Hr)%left_join_elem).
      destruct (joined_rows_spec (mistakes d) u') as (_ & Hfst & _).
      by rewrite (Hfst r Hr).
    - intros Hu. destruct (joined_rows_spec (mistakes d) u) as (Hne & Hfst & _).
      destruct (joined_rows (mistakes d) u) as [|r rs] eqn:Hrows; [done|].
      exists r. split; [symmetry; apply Hfst; left|].
      apply left_join_elem. exists u. split; [done|]. rewrite Hrows. left. }
  assert (keys ≡ₚ users d) as Hkeys.
  { unfold keys. rewrite merge_sort_Permutation.
    apply NoDup_Permutation; [apply NoDup_remove_dups|done|].
    intros u. by rewrite elem_of_remove_dups. }
  split; [|split].
  - rewrite <- list_fmap_compose.
    rewrite (list_fmap_ext _ id keys) by done. by rewrite list_fmap_id.
  - rewrite <- list_fmap_compose.
    rewrite (list_fmap_ext _ id keys) by done. rewrite list_fmap_id.
    apply StronglySorted_merge_sort; apply _.
  - intros row (u & -> & Hu)%list_elem_of_fmap. cbv zeta. cbn [fst snd].
    rewrite Hkeys in Hu. unfold joined. rewrite filter_joined by done.
    destruct (joined_rows_counts (mistakes d) u) as (-> & -> & ->). done.
Qed.

(** The theorem on the sample store. *)
Lemma users_stats_one_row_per_member_witness :
  get_users_stats (healthy sample_db)
  = (Ok [("A"%string, Some 1, Some 1, 2); ("B"%string, Some 1, Some 0, 1);
         ("C"%string, Some 0, Some 0, 0)],
     healthy sample_db).
Proof.
  destruct (users_stats_one_row_per_member sample_db) as (rows & Hrun & _).
  - apply sample_db_invariant.
  - rewrite Hrun. vm_compute in Hrun. congruence.
Defined.

(** ** Listings *)

Section UserMistakesProperties.

Variable joined_comments : db → Z → list comment.

(** Whatever the plan, GROUP_CONCAT gets the comments that refer to the
    incident, each once. *)
Hypothesis joined_comments_complete :
  ∀ d mistake_id,
    joined_comments d mistake_id ≡ₚ filter (λ c, c_mistake_id c = mistake_id) (comments d).


End UserMistakesProperties.

Section OldMistakesProperties.

Variable datetime_now_minus_days : Z → option Z.

Lemma get_old_mistakes_healthy d days :
  get_old_mistakes datetime_now_minus_days days (healthy d)
  = (Ok (merge_sort date_asc
           (filter (λ m, m_closed m = 0 ∧ until (datetime_now_minus_days days) m)
                   (mistakes d))),
     healthy d).
Proof. reflexivity. Qed.

(** X15: [get_old_mistakes] lists exactly the open incidents dated at or
    before the cutoff, oldest first; when SQLite cannot compute the cutoff
    the list is empty; and an incident that [close_mistake] closed is no
    longer listed. *)
Theorem old_mistakes_open_only (d : db) (days : Z) :
  ∃ rows,
    get_old_mistakes datetime_now_minus_days days (healthy d) = (Ok rows, healthy d) ∧
    (∀ m, m ∈ rows ↔
          m ∈ mistakes d ∧ m_closed m = 0 ∧
          ∃ cutoff, datetime_now_minus_days days = Some cutoff ∧ m_date m ≤ cutoff) ∧
    StronglySorted date_asc rows ∧
    (datetime_now_minus_days days = None → rows = []) ∧
    (∀ mistake_id rows',
       (close_mistake mistake_id;; get_old_mistakes datetime_now_minus_days days)
         (healthy d) = (Ok rows', healthy (sql_close mistake_id d).2) →
       ∀ m, m ∈ rows' → m_id m ≠ mistake_id ∧ m ∈ rows).
Proof.
  eexists. split; [apply get_old_mistakes_healthy|].
  split; [|split; [|split]].
  - intros m. rewrite merge_sort_Permutation, list_elem_of_filter.
    unfold until. destruct (datetime_now_minus_days days) as [cutoff|].
    + split.
      * intros [[? ?] ?]. split; [done|]. split; [done|]. by exists cutoff.
      * intros (? & ? & cutoff' & [= <-] & ?). done.
    + split; [by intros [[_ []] _]|]. by intros (_ & _ & cutoff & ? & _).
  - apply StronglySorted_merge_sort; apply _.
  - intros Hnull. rewrite Hnull. simpl.
    rewrite (proj2 (filter_nil_iff _ (mistakes d))); [done|]. by intros m _ [_ []].
  - intros mistake_id rows' Hrun m Hm.
    unfold mbind, M_bind in Hrun.
    rewrite close_mistake_healthy, get_old_mistakes_healthy in Hrun.
    injection Hrun as <-. simpl in Hm.
    rewrite merge_sort_Permutation in Hm.
    apply list_elem_of_filter in Hm as [[Hopen Huntil] (m0 & -> & Hm0)%list_elem_of_fmap].
    destruct (decide (m_id m0 = mistake_id)) as [Hid|Hid].
    + by rewrite close_row_closed in Hopen.
    + rewrite close_row_other in * by done. split; [done|].
      rewrite merge_sort_Permutation. apply list_elem_of_filter. by split.
Qed.

End OldMistakesProperties.

(** The theorem on the sample store with the cutoff 250: the incident 1
    (open, dated 100) is listed; the incident 7 (dated 300) is not. *)
Lemma old_mistakes_open_only_witness :
  ∃ rows,
    get_old_mistakes (λ _, Some 250) 7 (healthy sample_db) = (Ok rows, healthy sample_db) ∧
    Mistake 1 "A" "late delivery" 100 2 0 ∈ rows ∧
    Mistake 7 "B" "wrong invoice" 300 1 0 ∉ rows.
Proof.
  destruct (old_mistakes_open_only (λ _, Some 250) sample_db 7)
    as (rows & Hrun & Hlisted & _).
  exists rows. split; [done|]. split.
  - apply Hlisted. split; [left|]. split; [done|]. exists 250. split; [done|]. simpl. lia.
  - intros (_ & _ & cutoff & [= <-] & Hdate)%Hlisted. simpl in Hdate. lia.
Defined.

(** ** After clearing *)

(** X16: After [clear_mistakes] succeeded, every view of the incidents is
    empty: [has_any_data] is [False], the status statistics are three
    zeros, a search without filters and the ranking of the all-time
    report return nothing, no id that fits SQLite's 64 bits exists any
    more, and the list of members is what it was. *)
Theorem clear_mistakes_empties_every_view (d : db) :
  ∃ d',
    clear_mistakes (healthy d) = (Ok true, healthy d') ∧
    has_any_data (healthy d') = (Ok false, healthy d') ∧
    get_status_stats (healthy d') = (Ok (Counts 0 0 0), healthy d') ∧
    get_priority_stats (healthy d') = (Ok (PriorityCounts 0 0), healthy d') ∧
    search_mistakes no_filters (healthy d') = (Ok [], healthy d') ∧
    (∃ all, get_all_stats (healthy d') = (Ok all, healthy d') ∧
            r_total all = 0 ∧ r_top_users all = []) ∧
    (∀ mistake_id,
       in_int64 mistake_id →
       mistake_exists mistake_id (healthy d') = (Ok false, healthy d') ∧
       get_mistake mistake_id (healthy d') = (Ok None, healthy d')) ∧
    (get_users (healthy d')).1 = (get_users (healthy d)).1 ∧
    (∀ user, user ∈ users d → delete_user user (healthy d')
                              = (Ok true, healthy (set_users
                                   (filter (λ u, u ≠ user) (users d)) d'))).
Proof.
  eexists. split; [apply clear_mistakes_healthy|].
  split; [reflexivity|].
  split; [reflexivity|].
  split; [reflexivity|].
  split; [reflexivity|].
  split; [eexists; split; [reflexivity|]; split; reflexivity|].
  split; [intros mistake_id _; split; reflexivity|].
  split; [reflexivity|].
  intros user Huser. rewrite delete_user_healthy.
  rewrite bool_decide_false by (unfold sql_count_active, sql_count; simpl; lia).
  by rewrite bool_decide_true by (by apply count_name_pos).
Qed.

(** The theorem on the sample store: after clearing, the incident 1 is
    gone and "A", who owned it, can be deleted. *)
Lemma clear_mistakes_empties_every_view_witness :
  ((clear_mistakes;; mistake_exists 1) (healthy sample_db)).1 = Ok false ∧
  ((clear_mistakes;; delete_user "A") (healthy sample_db)).1 = Ok true.
Proof.
  destruct (clear_mistakes_empties_every_view sample_db)
    as (d' & Hclear & _ & _ & _ & _ & _ & Hgone & _ & Hdelete).
  destruct (Hgone 1) as [Hexists _]; [unfold in_int64; lia|].
  unfold mbind, M_bind. rewrite Hclear, Hexists, Hdelete; [done|].
  unfold sample_db. simpl. rewrite !elem_of_cons. tauto.
Defined.

(** ** The history that is never written *)

(** X17: [add_history] raises a [sqlite3.Error] on every call, whatever the
    arguments and the store, and changes nothing: the table it inserts
    into is not among the tables [create_tables] creates, and the body has
    no handler. *)
Theorem add_history_always_raises
    (w : world) (mistake_id : Z) (action : string) (old_value new_value : option string) :
  (∃ e, (add_history mistake_id action old_value new_value w).1
        = Raise (Sqlite3Error e)) ∧
  w_db (add_history mistake_id action old_value new_value w).2 = w_db w ∧
  (add_history mistake_id action old_value new_value (healthy (w_db w))).1
    = Raise (Sqlite3Error OperationalError).
Proof.
  destruct w as [d [|[e|] fs]]; simpl; repeat split; by eexists.
Qed.

(** ** The commands of the chat *)

Lemma group_handler_add_healthy d now user desc priority :
  group_handler_add now user desc priority (healthy d)
  = if bool_decide (user ∉ merge_sort string_le (users d))
    then (Ok (ReplyUnknownUser (merge_sort string_le (users d))), healthy d)
    else (if bool_decide (mistakes_seq d + 1 ≠ 0)
          then Ok (ReplyAdded (mistakes_seq d + 1))
          else Ok ReplyAddError,
          healthy (sql_insert_mistake user desc now
                     (if bool_decide (priority ∉ [1; 2]) then 1 else priority) d).2).
Proof.
  unfold group_handler_add. unfold mbind at 1, M_bind at 1.
  rewrite get_users_healthy.
  destruct (bool_decide (user ∉ merge_sort string_le (users d))); [done|].
  unfold mbind, M_bind. rewrite add_mistake_healthy. simpl.
  by destruct (bool_decide (mistakes_seq d + 1 ≠ 0)).
Qed.

(** X18: The command that adds an incident replies "added" to members
    only, and only when the incident is in the store: whatever the
    schedule of failures, a reply with an id means that the name is a
    member and that the incidents are those of before and one more row,
    with that id and the name, description and date given.  On a store
    with the invariant and without failures an unknown name is answered
    with the sorted list of members and no change, and a member gets the
    reply with the new id. *)
Theorem group_add_only_for_members
    (d : db) (now : Z) (user desc : string) (priority : Z) :
  (∀ fs id,
     (group_handler_add now user desc priority (World d fs)).1 = Ok (ReplyAdded id) →
     user ∈ users d ∧
     ∃ stored,
       mistakes (w_db (group_handler_add now user desc priority (World d fs)).2)
       = mistakes d ++ [Mistake id user desc now stored 0]) ∧
  (user ∉ users d →
     group_handler_add now user desc priority (healthy d)
     = (Ok (ReplyUnknownUser (merge_sort string_le (users d))), healthy d)) ∧
  (user ∈ users d → store_invariant d →
     ∃ id d',
       group_handler_add now user desc priority (healthy d)
       = (Ok (ReplyAdded id), healthy d') ∧
       (∀ m, m ∈ mistakes d → m_id m < id) ∧
       ∃ stored, mistakes d' = mistakes d ++ [Mistake id user desc now stored 0]).
Proof.
  split; [|split].
  - intros fs id. unfold group_handler_add, get_users, add_mistake, try_except_sqlite3_Error.
    schedule fs; simpl; unfold mbind, M_bind; simpl;
      try done;
      (case_bool_decide as Hknown; simpl; [done|]);
      rewrite merge_sort_Permutation in Hknown;
      repeat match goal with
             | |- context [bool_decide ?P] => destruct (bool_decide P); simpl
             end;
      try done;
      (intros [= <-]; split; [done|by eexists]).
  - intros Hunknown. rewrite group_handler_add_healthy.
    by rewrite bool_decide_true by (by rewrite merge_sort_Permutation).
  - intros Hmember [Hids Hseq _ _ _ _]. rewrite group_handler_add_healthy.
    rewrite bool_decide_false by (rewrite merge_sort_Permutation; by intros ?).
    rewrite bool_decide_true by lia. do 2 eexists. split; [done|]. split.
    + intros m Hm. specialize (Hids m Hm). lia.
    + by eexists.
Qed.

(** The theorem on the sample store for the member "B" and for "Z". *)
Lemma group_add_only_for_members_witness :
  (group_handler_add 400 "Z" "late" 1 (healthy sample_db)).1
    = Ok (ReplyUnknownUser ["A"; "B"; "C"]%string) ∧
  (group_handler_add 400 "B" "late" 2 (healthy sample_db)).1 = Ok (ReplyAdded 8) ∧
  "B"%string ∈ users sample_db.
Proof.
  destruct (group_add_only_for_members sample_db 400 "Z" "late" 1)
    as (_ & Hunknown & _).
  destruct (group_add_only_for_members sample_db 400 "B" "late" 2)
    as (Hadded & _ & Hmember).
  split; [|split; [|by apply (Hadded [] 8)]].
  - rewrite Hunknown; [done|]. unfold sample_db. simpl. rewrite !not_elem_of_cons.
    repeat split; (done || apply not_elem_of_nil).
  - destruct Hmember as (id & d' & Hrun & _).
    + unfold sample_db. simpl. rewrite !elem_of_cons. tauto.
    + apply sample_db_invariant.
    + assert (id = 8) as ->.
      { pose proof Hrun as Hid. rewrite group_handler_add_healthy in Hid.
        vm_compute in Hid. congruence. }
      by rewrite Hrun.
Defined.




(** ** What the write operations keep *)

Lemma only_closes_same d d' :
  store_invariant d → mistakes d' = mistakes d → only_closes d d'.
Proof.
  intros [_ _ Hunique _ _ _] Heq m m' Hm Hm' Hid. rewrite Heq in Hm'.
  assert (m' = m) as ->.
  { pose proof (filter_id_unique (mistakes d) m Hunique Hm) as Hone.
    assert (m' ∈ filter (λ x, m_id x = m_id m) (mistakes d)) as Hin
      by (by apply list_elem_of_filter).
    rewrite Hone in Hin. by apply list_elem_of_singleton in Hin. }
  unfold same_or_closed. tauto.
Qed.

Lemma only_closes_close d d' mistake_id :
  store_invariant d → mistakes d' = close_row mistake_id <$> mistakes d →
  only_closes d d'.
Proof.
  intros Hinv Heq m m' Hm Hm' Hid. rewrite Heq in Hm'.
  apply list_elem_of_fmap in Hm' as (m0 & -> & Hm0). rewrite close_row_id in Hid.
  destruct (only_closes_same d d Hinv eq_refl m m0 Hm Hm0 Hid)
    as (Hu & Hd & Ht & Hp & Hc).
  unfold close_row. case_bool_decide; unfold same_or_closed; simpl; tauto.
Qed.

Lemma only_closes_insert d d' user description date priority :
  store_invariant d →
  mistakes d'
    = mistakes d ++ [Mistake (mistakes_seq d + 1) user description date priority 0] →
  only_closes d d'.
Proof.
  intros Hinv Heq m m' Hm Hm' Hid. rewrite Heq in Hm'.
  apply elem_of_app in Hm' as [Hm'| ->%list_elem_of_singleton].
  - by apply (only_closes_same d d Hinv eq_refl m m').
  - destruct Hinv as [Hids _ _ _ _ _]. specialize (Hids m Hm). simpl in Hid. lia.
Qed.

Lemma only_closes_clear d d' : mistakes d' = [] → only_closes d d'.
Proof. intros Heq m m' _ Hm'. rewrite Heq in Hm'. by apply elem_of_nil in Hm'. Qed.

(** X20: No operation edits an incident or reopens it: when none of its
    calls into SQLite fails, an incident that is in the store before and
    after a write operation has the same user, description, date and
    priority, and its [closed] flag is the same or has become 1; in
    particular a closed incident stays closed. *)
Theorem incidents_change_only_by_closing (w : world) :
  store_invariant (w_db w) → no_fault 3 w →
  (∀ name, only_closes (w_db w) (w_db (add_user name w).2)) ∧
  (∀ name, only_closes (w_db w) (w_db (delete_user name w).2)) ∧
  (∀ now user description priority,
     only_closes (w_db w) (w_db (add_mistake now user description priority w).2)) ∧
  (∀ mistake_id, only_closes (w_db w) (w_db (close_mistake mistake_id w).2)) ∧
  (∀ now mistake_id user_id text,
     only_closes (w_db w) (w_db (add_comment now mistake_id user_id text w).2)) ∧
  only_closes (w_db w) (w_db (clear_mistakes w).2) ∧
  (∀ mistake_id m m',
     m ∈ mistakes (w_db w) → m' ∈ mistakes (w_db (close_mistake mistake_id w).2) →
     m_id m' = m_id m → m_closed m = 1 → m_closed m' = 1).
Proof.
  destruct w as [d fs]. simpl. intros Hinv _.
  assert (∀ mistake_id,
            only_closes d (w_db (close_mistake mistake_id (World d fs)).2)) as Hclose.
  { intros mistake_id. unfold close_mistake, try_except_sqlite3_Error.
    schedule fs; run_method;
      first [by apply only_closes_same | by eapply only_closes_close]. }
  split; [|split; [|split; [|split; [|split; [|split]]]]]; intros.
  - unfold add_user, sql_insert_user, try_except_IntegrityError.
    schedule fs; simpl; unfold mbind, M_bind; simpl;
      try case_bool_decide; simpl;
      repeat match goal with
             | |- context [match ?e with _ => _ end] => is_var e; destruct e; simpl
             end;
      by apply only_closes_same.
  - unfold delete_user, try_except_sqlite3_Error.
    schedule fs; run_method; by apply only_closes_same.
  - destruct (add_mistake_rows fs d now user description priority) as [Heq|Heq];
      simpl in Heq; rewrite Heq; [by apply only_closes_same|].
    by eapply only_closes_insert.
  - apply Hclose.
  - unfold add_comment, try_except_sqlite3_Error.
    schedule fs; run_method; by apply only_closes_same.
  - unfold clear_mistakes, try_except_sqlite3_Error.
    schedule fs; run_method;
      first [by apply only_closes_same | by apply only_closes_clear].
  - destruct (Hclose mistake_id m m') as (_ & _ & _ & _ & [Hc|Hc]); try done.
    congruence.
Qed.

(** The theorem on the sample store: closing incident 1 and adding an
    incident leave the other columns of every incident alone. *)
Lemma incidents_change_only_by_closing_witness :
  only_closes sample_db (w_db (close_mistake 1 (healthy sample_db)).2) ∧
  only_closes sample_db (w_db (add_mistake 400 "A" "late" 3 (healthy sample_db)).2).
Proof.
  assert (no_fault 3 (healthy sample_db)) as Hhealthy.
  { intros e He. simpl in He. by apply elem_of_nil in He. }
  destruct (incidents_change_only_by_closing (healthy sample_db)
              sample_db_invariant Hhealthy)
    as (_ & _ & Hadd & Hclose & _).
  split; [apply Hclose|apply Hadd].
Defined.

(** X21: The store invariant at work: every write operation keeps it,
    whatever fails, so starting from the empty store ids stay positive,
    unique and below the counter, priorities stay 1 or 2, the closed flag
    stays 0 or 1 and the names stay unique. *)
Theorem write_operations_preserve_invariant (w : world) :
  store_invariant empty_db ∧
  (store_invariant (w_db w) →
   (∀ name, store_invariant (w_db (add_user name w).2)) ∧
   (∀ name, store_invariant (w_db (delete_user name w).2)) ∧
   (∀ now user description priority,
      store_invariant (w_db (add_mistake now user description priority w).2)) ∧
   (∀ mistake_id, store_invariant (w_db (close_mistake mistake_id w).2)) ∧
   (∀ now mistake_id user_id text,
      store_invariant (w_db (add_comment now mistake_id user_id text w).2)) ∧
   store_invariant (w_db (clear_mistakes w).2)).
Proof.
  split; [apply empty_db_invariant|apply write_operations_keep_invariant].
Qed.

(** The theorem on the sample store with a database that locks at the
    second call. *)
Lemma write_operations_preserve_invariant_witness :
  store_invariant
    (w_db (add_mistake 400 "A" "late" 3 (World sample_db [None; Some OperationalError])).2).
Proof.
  destruct (write_operations_preserve_invariant
              (World sample_db [None; Some OperationalError]))
    as (_ & Hkeep).
  destruct (Hkeep sample_db_invariant) as (_ & _ & Hadd & _).
  apply Hadd.
Defined.

(** ** Looking an incident up *)

(** X22: The two lookups by id agree, for an id that fits SQLite's 64
    bits: [get_mistake] returns [None] exactly when [mistake_exists]
    returns [False], and what it returns otherwise is an incident of the
    store with that id, with the comments that refer to the id joined by
    commas. *)
Theorem get_mistake_agrees_with_mistake_exists (d : db) (mistake_id : Z) :
  in_int64 mistake_id →
  ∃ found row,
    mistake_exists mistake_id (healthy d) = (Ok found, healthy d) ∧
    get_mistake mistake_id (healthy d) = (Ok row, healthy d) ∧
    (found = false ↔ row = None) ∧
    (found = false ↔ ∀ m, m ∈ mistakes d → m_id m ≠ mistake_id) ∧
    (∀ m joined, row = Some (m, joined) →
       m ∈ mistakes d ∧ m_id m = mistake_id ∧
       joined = sql_group_concat ","
                  (c_text <$> filter (λ c, c_mistake_id c = mistake_id) (comments d))).
Proof.
  intros _. do 2 eexists. split; [apply mistake_exists_healthy|].
  split; [apply get_mistake_healthy|].
  unfold sql_count_id.
  destruct (filter (λ m, m_id m = mistake_id) (mistakes d)) as [|m ms] eqn:Hf.
  - split; [done|]. split; [|done]. split; [|done]. intros _ m Hm Hid.
    by eapply (filter_nil_not_elem_of _ _ m Hf).
  - assert (m ∈ filter (λ m, m_id m = mistake_id) (mistakes d)) as Hm
      by (rewrite Hf; left).
    apply list_elem_of_filter in Hm as [Hid Hm].
    split; [|split].
    + rewrite bool_decide_true by (unfold sql_count; simpl; lia). done.
    + rewrite bool_decide_true by (unfold sql_count; simpl; lia).
      split; [done|]. intros Hnone. by destruct (Hnone m Hm).
    + intros m' joined [= <- <-]. unfold comment_texts. by rewrite Hid.
Qed.

(** The theorem on the sample store: the ids 2 and 5. *)
Lemma get_mistake_agrees_with_mistake_exists_witness :
  get_mistake 5 (healthy sample_db) = (Ok None, healthy sample_db) ∧
  get_mistake 2 (healthy sample_db)
  = (Ok (Some (Mistake 2 "A" "7 boxes lost" 200 1 1, Some "fixed"%string)),
     healthy sample_db).
Proof.
  destruct (get_mistake_agrees_with_mistake_exists sample_db 5)
    as (found & row & Hexists & Hget & Hnone & Hmissing & _);
    [unfold in_int64; lia|].
  split; [|reflexivity].
  rewrite Hget. do 2 f_equal. apply Hnone, Hmissing. unfold sample_db. each_row.
Defined.


(** ** Searching by priority *)

Lemma search_conditions_priority user status priority text m :
  where_clause (search_conditions (SearchParams user status (Some priority) text)) m = true →
  m_priority m = priority.
Proof.
  unfold where_clause, search_conditions. simpl.
  rewrite !forallb_app. simpl. rewrite !andb_true_iff, bool_decide_eq_true. tauto.
Qed.

(** X23: A search with a priority filter, and parameters that SQLite
    accepts, returns only incidents of that priority; since the
    repository stores no priority but 1 and 2, a search for priority 3
    (which the docstring offers) or any other value finds nothing in a
    store with the invariant. *)
Theorem search_by_priority
    (d : db) (user status text : option string) (priority : Z) :
  search_params_fit (SearchParams user status (Some priority) text) →
  ∃ rows,
    search_mistakes (SearchParams user status (Some priority) text) (healthy d)
    = (Ok rows, healthy d) ∧
    (∀ m, m ∈ rows → m_priority m = priority) ∧
    (store_invariant d → priority ≠ 1 → priority ≠ 2 → rows = []).
Proof.
  intros _. eexists. split; [apply search_mistakes_healthy|]. split.
  - intros m Hm%elem_of_take_elem_of. rewrite merge_sort_Permutation in Hm.
    apply list_elem_of_filter in Hm as [Hwhere _].
    by eapply search_conditions_priority.
  - intros [_ _ _ Hpriority _ _] H1 H2.
    rewrite (proj2 (filter_nil_iff _ (mistakes d))); [done|].
    intros m Hm Hwhere%search_conditions_priority.
    destruct (Hpriority m Hm); lia.
Qed.

(** The theorem on the sample store for the priorities 2 and 3. *)
Lemma search_by_priority_witness :
  search_mistakes (SearchParams None None (Some 3) None) (healthy sample_db)
    = (Ok [], healthy sample_db) ∧
  search_mistakes (SearchParams None None (Some 2) None) (healthy sample_db)
    = (Ok [Mistake 1 "A" "late delivery" 100 2 0], healthy sample_db).
Proof.
  destruct (search_by_priority sample_db None None None 3) as (rows & Hrun & _ & Hnone).
  { split; [done|]. split; [|done]. intros priority [= <-]. unfold in_int64. lia. }
  split; [|reflexivity].
  rewrite Hrun, Hnone; [done|apply sample_db_invariant|lia|lia].
Defined.

(** ** The listings that read [self.cursor] *)

(** X24: The week listing, the month listing and the detailed statistics of a
    user raise [AttributeError] on every call, whatever the arguments and
    the store: they read [self.cursor], which [__init__] never assigns.
    The call does not reach SQLite (the world, with its pending failures,
    is what it was), and a handler for [sqlite3.Error] around the call
    does not catch the exception. *)
Theorem listings_fail_before_the_store
    (in_week : Z → bool) (in_month : Z → Z → Z → bool) (strftime_Y_m : Z → string)
    (w : world) :
  ("cursor"%string ∉ instance_attributes ++ class_attributes) ∧
  (∀ year week sentinel,
     get_week_mistakes in_week year week w = (Raise (AttributeError "cursor"), w) ∧
     try_except_sqlite3_Error (get_week_mistakes in_week year week) sentinel w
     = (Raise (AttributeError "cursor"), w)) ∧
  (∀ year month sentinel,
     get_month_mistakes in_month year month w = (Raise (AttributeError "cursor"), w) ∧
     try_except_sqlite3_Error (get_month_mistakes in_month year month) sentinel w
     = (Raise (AttributeError "cursor"), w)) ∧
  (∀ user_name sentinel,
     get_user_detailed_stats strftime_Y_m user_name w
     = (Raise (AttributeError "cursor"), w) ∧
     try_except_sqlite3_Error (get_user_detailed_stats strftime_Y_m user_name) sentinel w
     = (Raise (AttributeError "cursor"), w)).
Proof.
  split; [by apply (bool_decide_eq_false_1 _)|]. repeat split.
Qed.

(** ** config.py *)

Lemma split_not_nil sep s : split sep s ≠ [].
Proof. destruct s as [|c s]; simpl; [done|]. case_decide; [done|]. by destruct (split sep s). Qed.

(** [split] undoes [join]: the pieces joined by the separator are the
    text. *)
Lemma join_split sep s : join sep (split sep s) = s.
Proof.
  induction s as [|c s IH]; simpl; [done|].
  pose proof (split_not_nil sep s) as Hnil.
  case_decide as Hc.
  - subst c. destruct (split sep s) as [|piece pieces] eqn:Hs; [done|].
    simpl in *. by rewrite append_nil_l, IH.
  - destruct (split sep s) as [|piece pieces] eqn:Hs; [done|].
    simpl in *. destruct pieces; simpl in *; [by rewrite IH|].
    by rewrite append_cons, IH.
Qed.

Section ConfigProperties.

Variable int : string → option Z.

Lemma int_each_inr pieces ns :
  int_each int pieces = inr ns ↔ Forall2 (λ id n, int id = Some n) pieces ns.
Proof.
  revert ns. induction pieces as [|id pieces IH]; intros ns; simpl.
  - split; [by intros [= <-]|]. by intros ->%Forall2_nil_inv_l.
  - destruct (int id) as [n|] eqn:Hid.
    + destruct (int_each int pieces) as [e|ns'] eqn:Heach.
      * split; [done|]. intros (n' & ns' & _ & Hrest & ->)%Forall2_cons_inv_l.
        by apply IH in Hrest.
      * split.
        -- intros [= <-]. constructor; [done|]. by apply IH.
        -- intros (n' & ns'' & Hn & Hrest%IH & ->)%Forall2_cons_inv_l. congruence.
    + split; [done|]. intros (n' & ns' & Hn & _)%Forall2_cons_inv_l. congruence.
Qed.

Lemma int_each_inl pieces e :
  int_each int pieces = inl e →
  ∃ id, id ∈ pieces ∧ int id = None ∧ e = ValueError_invalid_literal id.
Proof.
  induction pieces as [|id pieces IH]; simpl; [done|].
  destruct (int id) as [n|] eqn:Hid.
  - destruct (int_each int pieces) as [e'|ns]; [|done].
    intros [= <-]. destruct (IH eq_refl) as (id' & Hin & Hnone & ->).
    exists id'. split; [by right|done].
  - intros [= <-]. exists id. split; [by left|done].
Qed.

Lemma load_config_inr environ c :
  load_config int environ = inr c ↔
  ∃ text,
    environ !! "BOT_TOKEN" = Some (BOT_TOKEN c) ∧ BOT_TOKEN c ≠ EmptyString ∧
    environ !! "GROUP_CHAT_ID" = Some text ∧ int text = Some (GROUP_CHAT_ID c) ∧
    GROUP_CHAT_ID c ≠ 0 ∧
    Forall2 (λ id n, int id = Some n) (admin_pieces environ) (ADMIN_IDS c) ∧
    ADMIN_IDS c ≠ [] ∧
    DB_PATH c = default "kosyaki.db"%string (environ !! "DB_PATH").
Proof.
  unfold load_config. split.
  - destruct (environ !! "GROUP_CHAT_ID") as [text|]; [|done].
    destruct (int text) as [n|] eqn:Hn; [|done].
    destruct (int_each int (admin_pieces environ)) as [e|ns] eqn:Heach; [done|].
    apply int_each_inr in Heach.
    destruct (environ !! "BOT_TOKEN") as [[|a token]|]; [done| |done].
    case_bool_decide; [done|]. destruct ns as [|n' ns]; [done|].
    intros [= <-]. simpl. by exists text.
  - intros (text & -> & Htoken & -> & -> & Hchat & Hids%int_each_inr & Hnonempty & Hpath).
    rewrite Hids. destruct c as [token chat ids path]. simpl in *.
    destruct token; [done|]. rewrite bool_decide_eq_false_2 by done.
    destruct ids; [done|]. by rewrite Hpath.
Qed.

(** X25: The module loads only with a complete configuration, and what it
    then defines is sound: the token is not empty, the chat id is the
    integer of GROUP_CHAT_ID and not 0, there is at least one
    administrator, the administrators are exactly the integers of the
    non-empty pieces of ADMIN_IDS between commas (so [is_admin] accepts
    those and no other id), and the database path is DB_PATH or
    [kosyaki.db]. *)
Theorem config_loaded_is_complete (environ : gmap string string) (c : config) :
  load_config int environ = inr c →
  environ !! "BOT_TOKEN" = Some (BOT_TOKEN c) ∧ BOT_TOKEN c ≠ EmptyString ∧
  (∃ text, environ !! "GROUP_CHAT_ID" = Some text ∧ int text = Some (GROUP_CHAT_ID c)) ∧
  GROUP_CHAT_ID c ≠ 0 ∧
  (∃ user_id, is_admin (ADMIN_IDS c) user_id = true) ∧
  (∀ user_id,
     is_admin (ADMIN_IDS c) user_id = true ↔
     ∃ id, id ∈ split "," (default EmptyString (environ !! "ADMIN_IDS")) ∧
           id ≠ EmptyString ∧ int id = Some user_id) ∧
  DB_PATH c = default "kosyaki.db"%string (environ !! "DB_PATH").
Proof.
  intros (text & Htoken & Hnonempty & Htext & Hchat & Hnonzero & Hids & Hadmins & Hpath)
    %load_config_inr.
  split; [done|]. split; [done|]. split; [by exists text|]. split; [done|].
  split; [|split; [|done]].
  - destruct (ADMIN_IDS c) as [|n ns]; [done|]. exists n.
    apply bool_decide_eq_true. left.
  - intros user_id. unfold is_admin. rewrite bool_decide_eq_true. split.
    + intros Hin. apply list_elem_of_lookup in Hin as [i Hi].
      destruct (Forall2_lookup_r _ _ _ _ _ Hids Hi) as (id & Hid & Hint).
      apply list_elem_of_lookup_2 in Hid.
      apply list_elem_of_filter in Hid as [Hne Hid]. by exists id.
    + intros (id & Hid & Hne & Hint).
      assert (id ∈ admin_pieces environ) as Hpiece by by apply list_elem_of_filter.
      apply list_elem_of_lookup in Hpiece as [i Hi].
      destruct (Forall2_lookup_l _ _ _ _ _ Hids Hi) as (n & Hn & Hint').
      apply list_elem_of_lookup_2 in Hn. congruence.
Qed.

(** X26: Which error an incomplete configuration gives.  A missing
    GROUP_CHAT_ID is a [TypeError] and a GROUP_CHAT_ID or a piece of
    ADMIN_IDS that is no integer is the [ValueError] of [int], also when
    BOT_TOKEN is missing: both are raised before the checks are reached.
    The message that GROUP_CHAT_ID is not set is raised only for a
    GROUP_CHAT_ID that is set, to an integer 0.  The message that
    ADMIN_IDS is not set means that ADMIN_IDS is missing or has nothing
    but commas. *)
Theorem config_errors (environ : gmap string string) :
  (environ !! "GROUP_CHAT_ID" = None → load_config int environ = inl TypeError) ∧
  (∀ text, environ !! "GROUP_CHAT_ID" = Some text → int text = None →
     load_config int environ = inl (ValueError_invalid_literal text)) ∧
  (∀ text id, environ !! "GROUP_CHAT_ID" = Some text → is_Some (int text) →
     id ∈ admin_pieces environ → int id = None →
     ∃ id', id' ∈ admin_pieces environ ∧ int id' = None ∧
            load_config int environ = inl (ValueError_invalid_literal id')) ∧
  (load_config int environ = inl (ValueError_not_set "GROUP_CHAT_ID") →
     ∃ text, environ !! "GROUP_CHAT_ID" = Some text ∧ int text = Some 0) ∧
  (load_config int environ = inl (ValueError_not_set "ADMIN_IDS") →
     ∀ id, id ∈ split "," (default EmptyString (environ !! "ADMIN_IDS")) →
           id = EmptyString) ∧
  (load_config int environ = inl (ValueError_not_set "BOT_TOKEN") →
     (environ !! "BOT_TOKEN" = None ∨ environ !! "BOT_TOKEN" = Some EmptyString) ∧
     is_Some (environ !! "GROUP_CHAT_ID")).
Proof.
  unfold load_config. split; [by intros ->|]. split; [by intros text -> ->|].
  split.
  { intros text id -> [n ->] Hid Hnone.
    destruct (int_each int (admin_pieces environ)) as [e|ns] eqn:Heach.
    - apply int_each_inl in Heach as (id' & Hid' & Hnone' & ->). by exists id'.
    - apply int_each_inr in Heach. apply list_elem_of_lookup in Hid as [i Hi].
      destruct (Forall2_lookup_l _ _ _ _ _ Heach Hi) as (m & _ & Hm). congruence. }
  destruct (environ !! "GROUP_CHAT_ID") as [text|]; [|done].
  destruct (int text) as [n|] eqn:Hn; [|done].
  destruct (int_each int (admin_pieces environ)) as [e|ns] eqn:Heach.
  { apply int_each_inl in Heach as (id & _ & _ & ->). by repeat split. }
  apply int_each_inr in Heach.
  destruct (environ !! "BOT_TOKEN") as [[|a token]|].
  - split; [done|]. split; [done|]. intros _. split; [by right|by eexists].
  - case_bool_decide as Hzero.
    + split; [|done]. intros _. exists text. by subst n.
    + split; [by destruct ns|]. split; [|by destruct ns].
      destruct ns as [|n' ns]; [|done]. intros _ id Hid.
      apply Forall2_nil_inv_r in Heach.
      destruct (decide (id = EmptyString)) as [|Hne]; [done|].
      assert (id ∈ admin_pieces environ) as Hpiece by by apply list_elem_of_filter.
      rewrite Heach in Hpiece. by apply elem_of_nil in Hpiece.
  - split; [done|]. split; [done|]. intros _. split; [by left|by eexists].
Qed.

End ConfigProperties.

(** A sample environment; [int] read as [text_as_integer] (unsigned
    decimal numerals). *)
Lemma config_loaded_is_complete_witness :
  let environ : gmap string string :=
    {[ "BOT_TOKEN" := "t"; "GROUP_CHAT_ID" := "5"; "ADMIN_IDS" := "1,,22" ]}%string in
  load_config text_as_integer environ = inr (Config "t" 5 [1; 22] "kosyaki.db") ∧
  is_admin [1; 22] 22 = true ∧ GROUP_CHAT_ID (Config "t" 5 [1; 22] "kosyaki.db") ≠ 0.
Proof.
  intros environ.
  assert (load_config text_as_integer environ = inr (Config "t" 5 [1; 22] "kosyaki.db"))
    as Hload by by vm_compute.
  destruct (config_loaded_is_complete text_as_integer environ _ Hload)
    as (_ & _ & _ & Hchat & _ & Hadmin & _).
  split; [done|]. split; [|done].
  apply Hadmin. exists "22"%string. split; [|done].
  vm_compute. do 2 right. left.
Defined.

(** Two incomplete environments: without GROUP_CHAT_ID, and with
    GROUP_CHAT_ID set to 0. *)
Lemma config_errors_witness :
  load_config text_as_integer ({[ "ADMIN_IDS" := "1" ]}%string : gmap string string)
    = inl TypeError ∧
  ∃ text,
    ({[ "BOT_TOKEN" := "t"; "GROUP_CHAT_ID" := "0"; "ADMIN_IDS" := "1" ]}%string
       : gmap string string) !! "GROUP_CHAT_ID"%string = Some text ∧
    text_as_integer text = Some 0.
Proof.
  split.
  - by destruct (config_errors text_as_integer {[ "ADMIN_IDS" := "1" ]}%string)
      as (Hmissing & _); apply Hmissing.
  - by destruct (config_errors text_as_integer
                   {[ "BOT_TOKEN" := "t"; "GROUP_CHAT_ID" := "0"; "ADMIN_IDS" := "1" ]}%string)
      as (_ & _ & _ & Hzero & _); apply Hzero.
Defined.
